(** * repeat_plugin: the group-chat repeat handler of [plugin.py]

    A shallow embedding of [RepeatHandler.execute] and of the helpers it
    calls, followed by the properties of the handler.

    Modelling conventions.
    - A Python [str] is a Rocq [string]; its characters stand for the code
      points 0..255.
    - The values a message record can hold are the type [pyval].
    - [random.random()] reads the next element of an infinite sequence of
      rationals (every float is a rational, and the handler only compares
      its draws).
    - The handler runs in a small state-and-exception monad over [world]:
      the class attribute [chat_history], the attribute
      [last_repeated_message], the number of draws consumed and the
      requests handed to [send_group_msg].
    - Calls to [logger] are not part of the modelled world. *)

From Stdlib Require Import ZArith QArith Strings.String Strings.Ascii.
From stdpp Require Import gmap strings list pretty.

Close Scope Q_scope.
Local Open Scope string_scope.
Local Open Scope list_scope.
Local Open Scope nat_scope.

(** ** Strings, as the built-in [str] methods treat them *)

Module Str.

(** [str.isspace] on one character (also the class [\s] of [re]). *)
Definition is_space (c : ascii) : bool :=
  let n := nat_of_ascii c in
  ((9 <=? n) && (n <=? 13)) || ((28 <=? n) && (n <=? 32))
  || (n =? 133) || (n =? 160).

(** The class [\d] of [re]. *)
Definition is_digit (c : ascii) : bool :=
  let n := nat_of_ascii c in (48 <=? n) && (n <=? 57).

Definition is_empty (s : string) : bool :=
  match s with EmptyString => true | String _ _ => false end.

(** Truth value of a [str]: non-empty. *)
Definition truthy (s : string) : bool := negb (is_empty s).

Fixpoint lstrip (s : string) : string :=
  match s with
  | EmptyString => EmptyString
  | String c s' => if is_space c then lstrip s' else s
  end.

Fixpoint rstrip (s : string) : string :=
  match s with
  | EmptyString => EmptyString
  | String c s' =>
      let r := rstrip s' in
      if is_space c && is_empty r then EmptyString else String c r
  end.

(** [s.strip()] *)
Definition strip (s : string) : string := rstrip (lstrip s).

(** [s.startswith(p)] *)
Definition startswith (s p : string) : bool := String.prefix p s.

(** The longest prefix whose characters satisfy [p], and the rest. *)
Fixpoint span (p : ascii -> bool) (s : string) : string * string :=
  match s with
  | EmptyString => (EmptyString, EmptyString)
  | String c s' =>
      if p c then let '(a, b) := span p s' in (String c a, b)
      else (EmptyString, s)
  end.

(** [s.split(sep)] for a one-character separator. *)
Fixpoint split (sep : ascii) (s : string) : list string :=
  match s with
  | EmptyString => [EmptyString]
  | String c s' =>
      if Ascii.eqb c sep then EmptyString :: split sep s'
      else match split sep s' with
           | [] => [String c EmptyString]
           | seg :: segs => String c seg :: segs
           end
  end.

(** All characters of [s] satisfy [p]. *)
Fixpoint all_chars (p : ascii -> bool) (s : string) : bool :=
  match s with
  | EmptyString => true
  | String c s' => p c && all_chars p s'
  end.

(** Removes the prefix [p] of [s], when it is one. *)
Fixpoint strip_prefix (p s : string) : option string :=
  match p, s with
  | EmptyString, _ => Some s
  | String a p', String b s' =>
      if Ascii.eqb a b then strip_prefix p' s' else None
  | String _ _, EmptyString => None
  end.

End Str.

(** ** The two regular expressions of the handler *)

Module Re.

Definition dquote : ascii := ascii_of_nat 34.
Definition quoted (s : string) : string :=
  String dquote (s ++ String dquote EmptyString).

(** A match of ["post_type"\s*:\s*"notice"] at the head of [s]. *)
Definition notice_here (s : string) : bool :=
  match Str.strip_prefix (quoted "post_type") s with
  | None => false
  | Some r =>
      match Str.strip_prefix ":" (snd (Str.span Str.is_space r)) with
      | Some r' =>
          String.prefix (quoted "notice") (snd (Str.span Str.is_space r'))
      | None => false
      end
  end.

(** [re.search(notice_pattern, text)] as a truth value. *)
Fixpoint search_notice (s : string) : bool :=
  notice_here s ||
  match s with
  | EmptyString => false
  | String _ s' => search_notice s'
  end.

Definition not_colon (c : ascii) : bool := negb (Ascii.eqb c ":").

(** A match of [@<([^:]+?):\d+>] at the head of [s]: the captured group
    and the text after the match.  The group cannot hold a colon and must
    be followed by one, and [>] is no digit, so the lazy and the greedy
    quantifier both have a single way to succeed. *)
Definition mention_here (s : string) : option (string * string) :=
  match Str.strip_prefix "@<" s with
  | None => None
  | Some s1 =>
      let '(name, r1) := Str.span not_colon s1 in
      match Str.strip_prefix ":" r1 with
      | None => None
      | Some s2 =>
          let '(digits, r2) := Str.span Str.is_digit s2 in
          match Str.strip_prefix ">" r2 with
          | None => None
          | Some rest =>
              if Str.truthy name && Str.truthy digits
              then Some (name, rest) else None
          end
      end
  end.

(** [re.sub(pattern, r'@\1', s)]: leftmost matches, left to right, the
    scan resuming after each match.  [fuel] bounds the number of scan
    steps; the length of the text is enough. *)
Fixpoint sub_mentions_fuel (fuel : nat) (s : string) : string :=
  match fuel with
  | O => s
  | S fuel' =>
      match mention_here s with
      | Some (name, rest) =>
          String "@" (name ++ sub_mentions_fuel fuel' rest)
      | None =>
          match s with
          | EmptyString => EmptyString
          | String c s' => String c (sub_mentions_fuel fuel' s')
          end
      end
  end.

Definition sub_mentions (s : string) : string :=
  sub_mentions_fuel (String.length s) s.

(** The mention markup the pattern describes: a name that is not empty
    and holds no colon, and a number of at least one digit. *)
Definition is_markup (name digits : string) : bool :=
  Str.truthy name && Str.all_chars not_colon name &&
  Str.truthy digits && Str.all_chars Str.is_digit digits.

Definition markup (name digits : string) : string :=
  "@<" ++ name ++ ":" ++ digits ++ ">".

End Re.

(** ** Python values *)

(** The values found in a message record.  [shown] is what [str()] gives
    for a container or an object. Built-in values carry none of the
    attribute names the handler probes. *)
#[warnings="-register-all"]
Inductive pyval :=
| PNone
| PBool (b : bool)
| PInt (n : Z)
| PStr (s : string)
| PDict (shown : string) (items : list (string * pyval))
| PObj (shown : string) (attrs : list (string * pyval)).

Fixpoint assoc {A} (k : string) (l : list (string * A)) : option A :=
  match l with
  | [] => None
  | (k', v) :: l' => if String.eqb k k' then Some v else assoc k l'
  end.

(** [str(x)] *)
Definition py_str (x : pyval) : string :=
  match x with
  | PNone => "None"
  | PBool true => "True"
  | PBool false => "False"
  | PInt n => pretty n
  | PStr s => s
  | PDict shown _ => shown
  | PObj shown _ => shown
  end.

(** Truth value of [x] in a condition. *)
Definition py_truthy (x : pyval) : bool :=
  match x with
  | PNone => false
  | PBool b => b
  | PInt n => negb (n =? 0)%Z
  | PStr s => Str.truthy s
  | PDict _ items => match items with [] => false | _ => true end
  | PObj _ _ => true
  end.

(** [getattr(x, name, default)] *)
Definition py_getattr (x : pyval) (name : string) (default : pyval) : pyval :=
  match x with
  | PObj _ attrs => match assoc name attrs with Some v => v | None => default end
  | _ => default
  end.

(** [int(s)] for a [str]: an optional sign, then decimal digits, single
    underscores allowed between digits.  [None] stands for [ValueError]. *)
Fixpoint int_digits (after_digit : bool) (acc : Z) (s : string) : option Z :=
  match s with
  | EmptyString => if after_digit then Some acc else None
  | String c s' =>
      if Str.is_digit c
      then int_digits true (10 * acc + Z.of_nat (nat_of_ascii c - 48))%Z s'
      else if Ascii.eqb c "_" && after_digit
           then match s' with
                | String d _ =>
                    if Str.is_digit d then int_digits false acc s' else None
                | EmptyString => None
                end
           else None
  end.

(** The whitespace [int] skips around the number: the characters of C's
    [isspace], and the Unicode whitespace above 127, which the conversion
    first turns into a space.  The separators 28..31, whitespace for
    [str.strip], are not skipped. *)
Definition int_space (c : ascii) : bool :=
  let n := nat_of_ascii c in
  ((9 <=? n) && (n <=? 13)) || (n =? 32) || (n =? 133) || (n =? 160).

Fixpoint int_lstrip (s : string) : string :=
  match s with
  | EmptyString => EmptyString
  | String c s' => if int_space c then int_lstrip s' else s
  end.

Fixpoint int_rstrip (s : string) : string :=
  match s with
  | EmptyString => EmptyString
  | String c s' =>
      let r := int_rstrip s' in
      if int_space c && Str.is_empty r then EmptyString else String c r
  end.

Definition py_int (s : string) : option Z :=
  match int_rstrip (int_lstrip s) with
  | String "-" s' => Z.opp <$> int_digits false 0%Z s'
  | String "+" s' => int_digits false 0%Z s'
  | s' => int_digits false 0%Z s'
  end.

(** ** Helper functions of the plugin *)

Definition _safe_str (x : pyval) : string :=
  match x with PNone => EmptyString | _ => py_str x end.

(** The loop of [_dig] on the values of [pyval].  [hasattr] is read on the
    fields of an object only: the model is the code on the segments that
    are no attribute name of a built-in value ([real] of an [int], [items]
    of a [dict], ...), and all the segments [execute] probes are such. *)
Fixpoint dig_segments (cur : pyval) (segs : list string) (default : pyval)
  : pyval :=
  match segs with
  | [] => cur
  | seg :: segs' =>
      match cur with
      | PNone => default
      | PObj _ attrs =>
          match assoc seg attrs with
          | Some v => dig_segments v segs' default
          | None => default
          end
      | PDict _ items =>
          match assoc seg items with
          | Some v => dig_segments v segs' default
          | None => default
          end
      | _ => default
      end
  end.

Definition _dig (obj : pyval) (path : string) (default : pyval) : pyval :=
  dig_segments obj (Str.split "." path) default.

Fixpoint _first_text (vals : list pyval) : string :=
  match vals with
  | [] => EmptyString
  | v :: vals' =>
      match v with
      | PNone => _first_text vals'
      | _ =>
          let s := Str.strip (py_str v) in
          if Str.truthy s then s else _first_text vals'
      end
  end.

(** ** The bounded window: [deque(maxlen=3)] *)

Module Deque.

Definition maxlen : nat := 3.

(** [deque(maxlen=3)] *)
Definition new : list string := [].

(** [d.append(x)]: a full deque drops its leftmost entry first. *)
Definition append (d : list string) (x : string) : list string :=
  if length d <? maxlen then d ++ [x] else drop 1 d ++ [x].

(** [d[-k]] for [1 <= k <= len(d)]. *)
Definition from_end (d : list string) (k : nat) : option string :=
  if (1 <=? k) && (k <=? length d) then d !! (length d - k) else None.

End Deque.

(** ** Configuration *)

(** A value of the loaded configuration. [CNum] is a finite [int] or
    [float]; the three values after it are the floats [inf], [-inf] and
    [nan]. *)
Inductive cfgval :=
| CBool (b : bool)
| CNum (q : Q)
| CInf
| CNegInf
| CNan
| CStr (s : string).

(** The host's [get_config(key, default)]: the value the loaded
    configuration holds under the dotted key, else the caller's default. *)
Definition get_config (cfg : gmap string cfgval) (key : string)
  (default : cfgval) : cfgval :=
  match cfg !! key with
  | Some v => v
  | None => default
  end.

(** One [ConfigField] of the schema: its type name and its default. *)
Record ConfigField := { field_type : string; field_default : cfgval }.

(** [RepeatPlugin.config_schema] (descriptions left out). *)
Definition config_schema : list (string * list (string * ConfigField)) :=
  [ ("plugin",
      [ ("name", {| field_type := "str"; field_default := CStr "repeat_plugin" |});
        ("version", {| field_type := "str"; field_default := CStr "1.0.0" |});
        ("enabled", {| field_type := "bool"; field_default := CBool true |}) ]);
    ("repeat",
      [ ("debug_mode", {| field_type := "bool"; field_default := CBool false |});
        ("repeat_probability",
          {| field_type := "float"; field_default := CNum (7 # 10) |});
        ("skip_probability",
          {| field_type := "float"; field_default := CNum (1 # 10) |}) ]) ].

(** The default the schema declares for [section.key]. *)
Definition schema_default (section key : string) : option cfgval :=
  fields ← assoc section config_schema;
  field_default <$> assoc key fields.

(** ** The world of the handler and its monad *)

(** What a call reads and writes, for the one handler instance the host
    keeps: the dictionary [chat_history] (a class attribute, mutated in
    place), [last_repeated_message] (read from the class, [None], until the
    first assignment through [self]), the number of draws taken from the
    random source, and the requests handed to [send_group_msg], oldest
    first. *)
Record world := World {
  chat_history : gmap string (list string);
  last_repeated_message : option string;
  draws_used : nat;
  outbox : list (Z * string)
}.

(** The state of a fresh process. *)
Definition init_world : world :=
  {| chat_history := ∅; last_repeated_message := None;
     draws_used := 0; outbox := [] |}.

Inductive exn := ValueError | TypeError.

Inductive result (A : Type) :=
| Ok (a : A)
| Raised (e : exn).
Arguments Ok {A} a.
Arguments Raised {A} e.

Definition M (A : Type) : Type := world -> result A * world.

Definition ret {A} (a : A) : M A := fun w => (Ok a, w).
Definition raise {A} (e : exn) : M A := fun w => (Raised e, w).
Definition bind {A B} (c : M A) (k : A -> M B) : M B :=
  fun w =>
    match c w with
    | (Ok a, w') => k a w'
    | (Raised e, w') => (Raised e, w')
    end.

#[export] Instance M_ret : MRet M := @ret.
#[export] Instance M_bind : MBind M := fun A B k c => bind c k.

Definition get_last_repeated : M (option string) :=
  fun w => (Ok (last_repeated_message w), w).

Definition set_last_repeated (v : option string) : M unit :=
  fun w =>
    (Ok tt, {| chat_history := chat_history w; last_repeated_message := v;
               draws_used := draws_used w; outbox := outbox w |}).

Definition set_history (g : string) (d : list string) : M unit :=
  fun w =>
    (Ok tt, {| chat_history := <[g := d]> (chat_history w);
               last_repeated_message := last_repeated_message w;
               draws_used := draws_used w; outbox := outbox w |}).

(** [if g not in self.chat_history: self.chat_history[g] = deque(maxlen=3)] *)
Definition init_history (g : string) : M unit :=
  fun w =>
    match chat_history w !! g with
    | Some _ => (Ok tt, w)
    | None => set_history g Deque.new w
    end.

(** The entries of [self.chat_history[g]]; [KeyError] cannot arise after
    [init_history]. *)
Definition history_of (w : world) (g : string) : list string :=
  default [] (chat_history w !! g).

Definition read_history (g : string) : M (list string) :=
  fun w => (Ok (history_of w g), w).

(** [history.append(text)] on the deque stored under [g]. *)
Definition history_append (g text : string) : M unit :=
  fun w => set_history g (Deque.append (history_of w g) text) w.

(** [random.random()] *)
Definition random (rng : nat -> Q) : M Q :=
  fun w =>
    (Ok (rng (draws_used w)),
     {| chat_history := chat_history w;
        last_repeated_message := last_repeated_message w;
        draws_used := S (draws_used w); outbox := outbox w |}).

(** [r <= p] for a draw [r]; [None] is the [TypeError] of a [str] on the
    right. *)
Definition py_le (r : Q) (p : cfgval) : option bool :=
  match p with
  | CBool b => Some (Qle_bool r (if b then 1 else 0)%Q)
  | CNum q => Some (Qle_bool r q)
  | CInf => Some true
  | CNegInf => Some false
  | CNan => Some false
  | CStr _ => None
  end.

Definition draw_le (r : Q) (p : cfgval) : M bool :=
  match py_le r p with
  | Some b => ret b
  | None => raise TypeError
  end.

(** [int(group_id)] *)
Definition int_of (s : string) : M Z :=
  match py_int s with
  | Some n => ret n
  | None => raise ValueError
  end.

(** [send_group_msg(group_id, text)]: the request is handed to the gateway;
    whatever fails inside is caught there. *)
Definition send_group_msg (group_id : Z) (text : string) : M unit :=
  fun w =>
    (Ok tt, {| chat_history := chat_history w;
               last_repeated_message := last_repeated_message w;
               draws_used := draws_used w;
               outbox := outbox w ++ [(group_id, text)] |}).

(** ** The handler *)

(** The tuple every branch of [execute] returns. *)
Definition handler_result : Type :=
  bool * bool * option string * option unit * option pyval.

Definition pass_on : handler_result := (true, true, None, None, None).

(** The group id of a message: the first candidate path with a text. *)
Definition group_id_of (message : pyval) : string :=
  _first_text
    [ _dig message "message_base_info.group_id" PNone;
      _dig message "group_id" PNone;
      _dig message "ctx.group_id" PNone;
      _dig message "context.group_id" PNone ].

(** The text of a message. *)
Definition text_of (message : pyval) : string :=
  _first_text
    [ _dig message "processed_plain_text" PNone;
      _dig message "message_content" PNone;
      _dig message "content" PNone;
      _dig message "message_base_info.content" PNone;
      _dig message "raw_message" PNone;
      _dig message "text" PNone ].

(** [len(history) >= 2] and [history[-1] == history[-2] == text]. *)
Definition repeat_trigger (history : list string) (text : string) : bool :=
  (2 <=? length history) &&
  match Deque.from_end history 1, Deque.from_end history 2 with
  | Some h1, Some h2 => String.eqb h1 h2 && String.eqb h2 text
  | _, _ => false
  end.

(** [text == self.last_repeated_message] *)
Definition is_last_repeated (text : string) (last : option string) : bool :=
  match last with
  | Some l => String.eqb text l
  | None => false
  end.

(** What the two probability gates leave: the early return of the skip
    branch, or the value of [reply_text]. *)
Inductive gate :=
| SkipRound
| Reply (reply_text : option string).

Definition gates (rng : nat -> Q) (skip_probability repeat_probability : cfgval)
  (history : list string) (text : string) : M gate :=
  if repeat_trigger history text then
    r ← random rng;
    skip ← draw_le r skip_probability;
    if skip : bool then mret SkipRound
    else
      r' ← random rng;
      again ← draw_le r' repeat_probability;
      mret (Reply (if again : bool then Some text else None))
  else mret (Reply None).

(** The three values [execute] reads from the configuration, each with
    the fallback written in the call. *)
Definition effective_debug_mode (cfg : gmap string cfgval) : cfgval :=
  get_config cfg "repeat.debug_mode" (CBool false).
Definition effective_repeat_probability (cfg : gmap string cfgval) : cfgval :=
  get_config cfg "repeat.repeat_probability" (CNum 1).
Definition effective_skip_probability (cfg : gmap string cfgval) : cfgval :=
  get_config cfg "repeat.skip_probability" (CNum 0).

(** [execute] from the creation of the window to its end: what runs for a
    message that no filter stopped. *)
Definition execute_pipeline (rng : nat -> Q)
  (skip_probability repeat_probability : cfgval) (group_id text : string)
  : M handler_result :=
  init_history group_id;;
  history ← read_history group_id;
  g ← gates rng skip_probability repeat_probability history text;
  match g with
  | SkipRound => history_append group_id text;; mret pass_on
  | Reply reply_text =>
      last ← get_last_repeated;
      match reply_text with
      | Some reply =>
          if Str.truthy reply && negb (is_last_repeated reply last)
          then
            let reply_text_cleaned := Re.sub_mentions reply in
            n ← int_of group_id;
            send_group_msg n reply_text_cleaned;;
            set_last_repeated (Some reply)
          else mret tt
      | None => mret tt
      end;;
      history_append group_id text;;
      mret pass_on
  end.

(** [RepeatHandler.execute].  [debug_mode] only guards calls to [logger],
    which the model leaves out. *)
Definition execute (cfg : gmap string cfgval) (rng : nat -> Q)
  (message : option pyval) : M handler_result :=
  let debug_mode := effective_debug_mode cfg in
  let repeat_probability := effective_repeat_probability cfg in
  let skip_probability := effective_skip_probability cfg in
  match message with
  | None => mret pass_on
  | Some message =>
      let group_id := group_id_of message in
      if negb (Str.truthy group_id) then mret pass_on else
      let group_id := _safe_str (PStr group_id) in
      let text := text_of message in
      if negb (Str.truthy text) then mret pass_on else
      if Re.search_notice text then mret pass_on else
      if Str.startswith text "[CQ:" then mret pass_on else
      let is_self := py_getattr message "is_self" (PBool false) in
      if py_truthy is_self then
        last ← get_last_repeated;
        (if is_last_repeated text last then set_last_repeated None
         else mret tt);;
        mret pass_on
      else
        execute_pipeline rng skip_probability repeat_probability group_id text
  end.

(** The host hands the handler one message after the other; an exception
    of one call leaves the world as that call left it. *)
Definition step (cfg : gmap string cfgval) (rng : nat -> Q)
  (w : world) (message : option pyval) : world :=
  snd (execute cfg rng message w).

Definition run (cfg : gmap string cfgval) (rng : nat -> Q)
  (messages : list (option pyval)) (w : world) : world :=
  foldl (step cfg rng) w messages.

(** A message record in the host's shape: the group id under
    [message_base_info], the text under [processed_plain_text]. *)
Definition group_message (group_id text : string) (is_self : bool) : pyval :=
  PObj "MaiMessages"
    [ ("message_base_info", PDict "{...}" [("group_id", PStr group_id)]);
      ("processed_plain_text", PStr text);
      ("is_self", PBool is_self) ].

(** ** Reading a call: which filter stops a message, which path it takes *)

(** What the filters of [execute] make of a message: stopped, written by
    the bot itself, or handed to the detector with a group id and a text. *)
Inductive verdict :=
| Dropped
| SelfAuthored (text : string)
| Observed (group_id text : string).

Definition classify (message : option pyval) : verdict :=
  match message with
  | None => Dropped
  | Some m =>
      let g := group_id_of m in
      let t := text_of m in
      if negb (Str.truthy g) then Dropped
      else if negb (Str.truthy t) then Dropped
      else if Re.search_notice t then Dropped
      else if Str.startswith t "[CQ:" then Dropped
      else if py_truthy (py_getattr m "is_self" (PBool false))
           then SelfAuthored t
           else Observed g t
  end.

(** The ways through the detector and the decision. [Failed e k] is an
    exception [e] after [k] draws. *)
Inductive path :=
| NoTrigger
| Skipped
| NotRepeated
| Suppressed
| Echoed (n : Z)
| Failed (e : exn) (k : nat).

Definition path_of (rng : nat -> Q) (sp rp : cfgval) (g t : string)
  (w : world) : path :=
  if negb (repeat_trigger (history_of w g) t) then NoTrigger else
  match py_le (rng (draws_used w)) sp with
  | None => Failed TypeError 1
  | Some true => Skipped
  | Some false =>
      match py_le (rng (S (draws_used w))) rp with
      | None => Failed TypeError 2
      | Some false => NotRepeated
      | Some true =>
          if is_last_repeated t (last_repeated_message w) then Suppressed
          else match py_int g with
               | Some n => Echoed n
               | None => Failed ValueError 2
               end
      end
  end.

Definition draws_of (p : path) : nat :=
  match p with
  | NoTrigger => 0
  | Skipped => 1
  | NotRepeated | Suppressed | Echoed _ => 2
  | Failed _ k => k
  end.

(** The world a path leaves behind. *)
Definition world_after (p : path) (g t : string) (w : world) : world :=
  {| chat_history :=
       <[g := match p with
              | Failed _ _ => history_of w g
              | _ => Deque.append (history_of w g) t
              end]> (chat_history w);
     last_repeated_message :=
       match p with
       | Echoed _ => Some t
       | _ => last_repeated_message w
       end;
     draws_used := draws_of p + draws_used w;
     outbox :=
       match p with
       | Echoed n => outbox w ++ [(n, Re.sub_mentions t)]
       | _ => outbox w
       end |}.

Definition result_after (p : path) : result handler_result :=
  match p with
  | Failed e _ => Raised e
  | _ => Ok pass_on
  end.

(** ** Vocabulary of the statements *)

(** The texts of the messages that reach the detector, in order. *)
Definition observed_texts (ms : list (option pyval)) : list string :=
  omap (fun m => match classify m with
                 | Observed _ t => Some t
                 | _ => None
                 end) ms.

(** Every entry of every window is one of [seen]. *)
Definition entries_in (seen : list string) (w : world) : Prop :=
  forall g h x, chat_history w !! g = Some h -> x ∈ h -> x ∈ seen.

(** No window holds more than [maxlen] entries. *)
Definition windows_bounded (w : world) : Prop :=
  forall g h, chat_history w !! g = Some h -> length h <= Deque.maxlen.

(** ** Sample configurations, draws and messages *)

(** [repeat_probability = 1.0], [skip_probability = 0.0] *)
Definition certain_cfg : gmap string cfgval :=
  {[ "repeat.repeat_probability" := CNum 1;
     "repeat.skip_probability" := CNum 0 ]}.

(** [skip_probability = 1.0], [repeat_probability = 1.0] *)
Definition always_skip_cfg : gmap string cfgval :=
  {[ "repeat.repeat_probability" := CNum 1;
     "repeat.skip_probability" := CNum 1 ]}.

(** [repeat_probability = 0.5], [skip_probability = 0.25] *)
Definition even_cfg : gmap string cfgval :=
  {[ "repeat.repeat_probability" := CNum (1 # 2);
     "repeat.skip_probability" := CNum (1 # 4) ]}.

(** The configuration the schema's defaults make. *)
Definition schema_cfg : gmap string cfgval :=
  {[ "repeat.debug_mode" := CBool false;
     "repeat.repeat_probability" := CNum (7 # 10);
     "repeat.skip_probability" := CNum (1 # 10) ]}.

(** Every draw is [q]. *)
Definition steady (q : Q) : nat -> Q := fun _ => q.

(** The draws of [l] in turn, then 1/2 for ever. *)
Definition draws (l : list Q) : nat -> Q := fun n => nth n l (1 # 2)%Q.

(** A message of another member of the group. *)
Definition said (group_id text : string) : option pyval :=
  Some (group_message group_id text false).

(** A message of the bot itself. *)
Definition bot_said (group_id text : string) : option pyval :=
  Some (group_message group_id text true).

(** ** Vocabulary of the further properties *)

(** The loop of [_dig] over any kind of object [O]: [is_none cur] is
    [cur is None], [attr cur seg] is the value of [getattr(cur, seg)] when
    [hasattr(cur, seg)] holds, and [item cur seg] is [cur[seg]] when [cur]
    is a [dict] that holds the key [seg]. *)
Fixpoint dig_loop {O : Type} (is_none : O -> bool)
  (attr item : O -> string -> option O)
  (cur : O) (segs : list string) (default : O) : O :=
  match segs with
  | [] => cur
  | seg :: segs' =>
      if is_none cur then default
      else match attr cur seg with
           | Some v => dig_loop is_none attr item v segs' default
           | None =>
               match item cur seg with
               | Some v => dig_loop is_none attr item v segs' default
               | None => default
               end
           end
  end.

(** [_dig(obj, path, default)] over such objects. *)
Definition dig_path {O : Type} (is_none : O -> bool)
  (attr item : O -> string -> option O)
  (obj : O) (path : string) (default : O) : O :=
  dig_loop is_none attr item obj (Str.split "." path) default.

(** The three readings on the values of [pyval]. *)
Definition pyval_is_none (x : pyval) : bool :=
  match x with PNone => true | _ => false end.

Definition pyval_attr (x : pyval) (seg : string) : option pyval :=
  match x with PObj _ attrs => assoc seg attrs | _ => None end.

Definition pyval_item (x : pyval) (seg : string) : option pyval :=
  match x with PDict _ items => assoc seg items | _ => None end.

(** The number a string of decimal digits denotes, after [acc]. *)
Fixpoint digits_value (acc : Z) (s : string) : Z :=
  match s with
  | EmptyString => acc
  | String c s' =>
      digits_value (10 * acc + Z.of_nat (nat_of_ascii c - 48))%Z s'
  end.

Definition not_space (c : ascii) : bool := negb (Str.is_space c).

Definition not_at (c : ascii) : bool := negb (Ascii.eqb c "@").

(** A candidate [_first_text] passes over: [None], or a value whose text
    is empty once stripped. *)
Definition blank (v : pyval) : bool :=
  match v with
  | PNone => true
  | _ => Str.is_empty (Str.strip (py_str v))
  end.

(** The value can stand on the right of [<=] against a float. *)
Definition comparable (p : cfgval) : bool :=
  match p with
  | CStr _ => false
  | _ => true
  end.

(** The texts observed in group [g], in order. *)
Definition group_texts (g : string) (ms : list (option pyval)) : list string :=
  omap (fun m => match classify m with
                 | Observed g' t => if String.eqb g' g then Some t else None
                 | _ => None
                 end) ms.

(** The last [n] entries of [l]. *)
Definition last_entries (n : nat) (l : list string) : list string :=
  drop (length l - n) l.

(** The group id of every observed message is a number for [int]. *)
Definition numeric_groups (ms : list (option pyval)) : Prop :=
  Forall (fun m => forall g t, classify m = Observed g t -> is_Some (py_int g))
    ms.

(** ** Lemmas on the world *)

Lemma world_eq w1 w2 :
  chat_history w1 = chat_history w2 ->
  last_repeated_message w1 = last_repeated_message w2 ->
  draws_used w1 = draws_used w2 ->
  outbox w1 = outbox w2 ->
  w1 = w2.
Proof. destruct w1, w2; simpl; intros; subst; reflexivity. Qed.

Lemma init_history_spec g w :
  init_history g w =
  (Ok tt, {| chat_history := <[g := history_of w g]> (chat_history w);
             last_repeated_message := last_repeated_message w;
             draws_used := draws_used w; outbox := outbox w |}).
Proof.
  unfold init_history, history_of, set_history.
  destruct (chat_history w !! g) as [h|] eqn:E; simpl.
  - f_equal. apply world_eq; simpl; auto. symmetry. by apply insert_id.
  - reflexivity.
Qed.

Lemma execute_pipeline_path rng sp rp g t w :
  Str.truthy t = true ->
  execute_pipeline rng sp rp g t w =
  let p := path_of rng sp rp g t w in (result_after p, world_after p g t w).
Proof.
  intros Ht. unfold execute_pipeline, path_of.
  unfold mbind, M_bind, bind at 1. rewrite init_history_spec.
  unfold read_history, bind at 1. unfold history_of at 1. simpl.
  rewrite lookup_insert_eq. simpl.
  unfold gates.
  destruct (repeat_trigger (history_of w g) t) eqn:Etr; simpl.
  - unfold mbind, M_bind, bind, random, draw_le; simpl.
    destruct (py_le (rng (draws_used w)) sp) as [[|]|] eqn:E1; simpl.
    + unfold history_append, history_of, set_history; simpl.
      rewrite lookup_insert_eq; simpl. f_equal.
      apply world_eq; simpl; auto. by rewrite insert_insert_eq.
    + destruct (py_le (rng (S (draws_used w))) rp) as [[|]|] eqn:E2; simpl.
      * rewrite Ht; simpl.
        destruct (is_last_repeated t (last_repeated_message w)) eqn:El; simpl.
        -- unfold history_append, history_of, set_history; simpl.
           rewrite lookup_insert_eq; simpl. f_equal.
           apply world_eq; simpl; auto. by rewrite insert_insert_eq.
        -- unfold int_of. destruct (py_int g) as [n|] eqn:Ei; simpl.
           ++ unfold history_append, history_of, set_history; simpl.
              rewrite lookup_insert_eq; simpl. f_equal.
              apply world_eq; simpl; auto. by rewrite insert_insert_eq.
           ++ reflexivity.
      * unfold history_append, history_of, set_history; simpl.
        rewrite lookup_insert_eq; simpl. f_equal.
        apply world_eq; simpl; auto. by rewrite insert_insert_eq.
      * reflexivity.
    + reflexivity.
  - unfold mbind, M_bind, bind, history_append, history_of, set_history; simpl.
    rewrite lookup_insert_eq; simpl. f_equal.
    apply world_eq; simpl; auto. by rewrite insert_insert_eq.
Qed.

Lemma classify_observed m g t :
  classify m = Observed g t ->
  Str.truthy g = true /\ Str.truthy t = true /\
  Re.search_notice t = false /\ Str.startswith t "[CQ:" = false.
Proof.
  destruct m as [m|]; simpl; [|discriminate].
  destruct (Str.truthy (group_id_of m)) eqn:Eg; simpl; [|discriminate].
  destruct (Str.truthy (text_of m)) eqn:Et; simpl; [|discriminate].
  destruct (Re.search_notice (text_of m)) eqn:En; [discriminate|].
  destruct (Str.startswith (text_of m) "[CQ:") eqn:Ec; [discriminate|].
  destruct (py_truthy _); [discriminate|].
  intros [= <- <-]. auto.
Qed.

Section Calls.

Variable cfg : gmap string cfgval.
Variable rng : nat -> Q.

Lemma execute_dropped m w :
  classify m = Dropped -> execute cfg rng m w = (Ok pass_on, w).
Proof.
  destruct m as [m|]; simpl; [|reflexivity].
  destruct (Str.truthy (group_id_of m)); simpl; [|reflexivity].
  destruct (Str.truthy (text_of m)); simpl; [|reflexivity].
  destruct (Re.search_notice (text_of m)); [reflexivity|].
  destruct (Str.startswith (text_of m) "[CQ:"); [reflexivity|].
  destruct (py_truthy _); discriminate.
Qed.

Lemma execute_self m t w :
  classify m = SelfAuthored t ->
  execute cfg rng m w =
  (Ok pass_on,
   {| chat_history := chat_history w;
      last_repeated_message :=
        if is_last_repeated t (last_repeated_message w) then None
        else last_repeated_message w;
      draws_used := draws_used w; outbox := outbox w |}).
Proof.
  destruct m as [m|]; simpl; [|discriminate].
  destruct (Str.truthy (group_id_of m)); simpl; [|discriminate].
  destruct (Str.truthy (text_of m)); simpl; [|discriminate].
  destruct (Re.search_notice (text_of m)); [discriminate|].
  destruct (Str.startswith (text_of m) "[CQ:"); [discriminate|].
  destruct (py_truthy _); [|discriminate].
  intros [= <-].
  unfold mbind, M_bind, bind, get_last_repeated; simpl.
  destruct (is_last_repeated _ _); simpl; f_equal.
  by destruct w.
Qed.

Lemma execute_observed m g t w :
  classify m = Observed g t ->
  execute cfg rng m w =
  let p := path_of rng (effective_skip_probability cfg)
             (effective_repeat_probability cfg) g t w in
  (result_after p, world_after p g t w).
Proof.
  intros Hc. destruct (classify_observed _ _ _ Hc) as (_ & Ht & _ & _).
  rewrite <- (execute_pipeline_path rng _ _ g t w Ht).
  destruct m as [m|]; simpl in *; [|discriminate].
  destruct (Str.truthy (group_id_of m)); simpl in *; [|discriminate].
  destruct (Str.truthy (text_of m)); simpl in *; [|discriminate].
  destruct (Re.search_notice (text_of m)); [discriminate|].
  destruct (Str.startswith (text_of m) "[CQ:"); [discriminate|].
  destruct (py_truthy _); [discriminate|].
  injection Hc as <- <-. reflexivity.
Qed.

Lemma step_observed m g t w :
  classify m = Observed g t ->
  step cfg rng w m =
  world_after (path_of rng (effective_skip_probability cfg)
                 (effective_repeat_probability cfg) g t w) g t w.
Proof. intros Hc. unfold step. by rewrite (execute_observed _ _ _ _ Hc). Qed.

Lemma step_dropped m w : classify m = Dropped -> step cfg rng w m = w.
Proof. intros Hc. unfold step. by rewrite execute_dropped. Qed.

Lemma step_self_history m t w :
  classify m = SelfAuthored t ->
  chat_history (step cfg rng w m) = chat_history w /\
  outbox (step cfg rng w m) = outbox w.
Proof. intros Hc. unfold step. by rewrite (execute_self _ _ _ Hc). Qed.

End Calls.

Lemma two_last (h : list string) :
  2 <= length h -> exists pre a b, h = pre ++ [a; b].
Proof.
  intros Hl. destruct h as [|x h] using rev_ind; [simpl in Hl; lia|].
  clear IHh. destruct h as [|y h _] using rev_ind.
  - simpl in Hl. lia.
  - exists h, y, x. by rewrite <- app_assoc.
Qed.

Lemma from_end_snoc2 (pre : list string) a b :
  Deque.from_end (pre ++ [a; b]) 1 = Some b /\
  Deque.from_end (pre ++ [a; b]) 2 = Some a.
Proof.
  unfold Deque.from_end.
  assert (Hl : length (pre ++ [a; b]) = length pre + 2)
    by (rewrite length_app; reflexivity).
  rewrite Hl.
  assert (H1 : (1 <=? 1) && (1 <=? length pre + 2) = true)
    by (apply andb_true_iff; split; apply Nat.leb_le; lia).
  assert (H2 : (1 <=? 2) && (2 <=? length pre + 2) = true)
    by (apply andb_true_iff; split; apply Nat.leb_le; lia).
  rewrite H1, H2. split.
  - rewrite lookup_app_r by lia.
    replace (length pre + 2 - 1 - length pre) with 1 by lia. reflexivity.
  - rewrite lookup_app_r by lia.
    replace (length pre + 2 - 2 - length pre) with 0 by lia. reflexivity.
Qed.

Lemma repeat_trigger_iff h t :
  repeat_trigger h t = true <-> exists pre, h = pre ++ [t; t].
Proof.
  unfold repeat_trigger. split.
  - intros H. apply andb_true_iff in H as [Hl H].
    apply Nat.leb_le in Hl. destruct (two_last h Hl) as (pre & a & b & ->).
    destruct (from_end_snoc2 pre a b) as [E1 E2]. rewrite E1, E2 in H.
    apply andb_true_iff in H as [H1 H2].
    apply String.eqb_eq in H1, H2. subst. by exists pre.
  - intros [pre ->]. destruct (from_end_snoc2 pre t t) as [-> ->].
    rewrite String.eqb_refl. apply andb_true_iff. split; [|reflexivity].
    apply Nat.leb_le. rewrite length_app. simpl. lia.
Qed.

(** ** The window *)

Lemma append_elem (h : list string) t x :
  x ∈ Deque.append h t -> x ∈ h \/ x = t.
Proof.
  unfold Deque.append. destruct (length h <? Deque.maxlen).
  - rewrite elem_of_app, list_elem_of_singleton. tauto.
  - rewrite elem_of_app, list_elem_of_singleton. intros [H|H]; [left|by right].
    revert H. apply (subseteq_drop 1 h).
Qed.

Lemma append_length (h : list string) t :
  length h <= Deque.maxlen -> length (Deque.append h t) <= Deque.maxlen.
Proof.
  unfold Deque.append, Deque.maxlen. intros Hl.
  destruct (Nat.ltb_spec (length h) 3) as [H|H].
  - rewrite length_app. simpl. lia.
  - rewrite length_app, length_drop. simpl. lia.
Qed.

Lemma append_full a b c d : Deque.append [a; b; c] d = [b; c; d].
Proof. reflexivity. Qed.

Lemma append_snoc2 (h : list string) t :
  exists pre a, Deque.append h t = pre ++ [a; t] \/ Deque.append h t = [t].
Proof.
  unfold Deque.append. destruct (length h <? Deque.maxlen) eqn:E.
  - destruct h as [|x h _] using rev_ind.
    + exists [], t. by right.
    + exists h, x. left. by rewrite <- app_assoc.
  - apply Nat.ltb_ge in E. unfold Deque.maxlen in E.
    assert (Hd : 1 <= length (drop 1 h)) by (rewrite length_drop; lia).
    destruct (drop 1 h) as [|x h' _] using rev_ind.
    + simpl in Hd. lia.
    + exists h', x. left. by rewrite <- app_assoc.
Qed.

Lemma history_of_after p g t w :
  history_of (world_after p g t w) g =
  match p with
  | Failed _ _ => history_of w g
  | _ => Deque.append (history_of w g) t
  end.
Proof. unfold history_of at 1. simpl. by rewrite lookup_insert_eq. Qed.

Lemma history_after_other p g t w g' :
  g <> g' -> chat_history (world_after p g t w) !! g' = chat_history w !! g'.
Proof. intros Hne. simpl. by rewrite lookup_insert_ne. Qed.

Lemma outbox_after p g t w :
  outbox (world_after p g t w) =
  match p with
  | Echoed n => outbox w ++ [(n, Re.sub_mentions t)]
  | _ => outbox w
  end.
Proof. reflexivity. Qed.

Lemma path_no_trigger rng sp rp g t w :
  repeat_trigger (history_of w g) t = false ->
  path_of rng sp rp g t w = NoTrigger.
Proof. intros H. unfold path_of. by rewrite H. Qed.

Lemma path_echoed_inv rng sp rp g t w n :
  path_of rng sp rp g t w = Echoed n ->
  repeat_trigger (history_of w g) t = true /\
  py_le (rng (draws_used w)) sp = Some false /\
  py_le (rng (S (draws_used w))) rp = Some true /\
  is_last_repeated t (last_repeated_message w) = false /\
  py_int g = Some n.
Proof.
  unfold path_of.
  destruct (repeat_trigger _ _); simpl; [|discriminate].
  destruct (py_le _ sp) as [[|]|]; try discriminate.
  destruct (py_le _ rp) as [[|]|]; try discriminate.
  destruct (is_last_repeated _ _); try discriminate.
  destruct (py_int g); try discriminate.
  intros [= ->]. auto.
Qed.

Lemma path_echoed_intro rng sp rp g t w n :
  repeat_trigger (history_of w g) t = true ->
  py_le (rng (draws_used w)) sp = Some false ->
  py_le (rng (S (draws_used w))) rp = Some true ->
  is_last_repeated t (last_repeated_message w) = false ->
  py_int g = Some n ->
  path_of rng sp rp g t w = Echoed n.
Proof. intros H1 H2 H3 H4 H5. unfold path_of. by rewrite H1, H2, H3, H4, H5. Qed.

Lemma outbox_changed_echoed p g t w :
  outbox (world_after p g t w) <> outbox w -> exists n, p = Echoed n.
Proof. destruct p; simpl; try congruence. eauto. Qed.

Lemma run_app cfg rng ms1 ms2 w :
  run cfg rng (ms1 ++ ms2) w = run cfg rng ms2 (run cfg rng ms1 w).
Proof. apply foldl_app. Qed.

Lemma run_cons cfg rng m ms w :
  run cfg rng (m :: ms) w = run cfg rng ms (step cfg rng w m).
Proof. reflexivity. Qed.

Lemma run_snoc cfg rng m ms w :
  run cfg rng (ms ++ [m]) w = step cfg rng (run cfg rng ms w) m.
Proof. by rewrite run_app. Qed.

Lemma entries_in_history seen w g x :
  entries_in seen w -> x ∈ history_of w g -> x ∈ seen.
Proof.
  unfold history_of. intros H. destruct (chat_history w !! g) eqn:E; simpl.
  - eauto.
  - by intros ?%elem_of_nil.
Qed.

Lemma entries_in_step cfg rng seen w m :
  entries_in seen w ->
  entries_in (seen ++ observed_texts [m]) (step cfg rng w m).
Proof.
  intros Hin g h x Hh Hx. unfold observed_texts. simpl.
  destruct (classify m) as [|t|g' t] eqn:Hc.
  - rewrite (step_dropped _ _ _ _ Hc) in Hh. rewrite app_nil_r. eauto.
  - destruct (step_self_history cfg rng _ _ w Hc) as [E _]. rewrite E in Hh.
    rewrite app_nil_r. eauto.
  - rewrite (step_observed _ _ _ _ _ _ Hc) in Hh.
    apply elem_of_app. destruct (decide (g' = g)) as [->|Hne].
    + simpl in Hh. rewrite lookup_insert_eq in Hh. injection Hh as <-.
      destruct (path_of _ _ _ _ _ _);
        try (apply append_elem in Hx as [Hx| ->];
             [left; eapply entries_in_history; eauto
             | right; apply list_elem_of_singleton; reflexivity]).
      left. eapply entries_in_history; eauto.
    + rewrite history_after_other in Hh by done. left. eauto.
Qed.

Lemma fresh_text_no_trigger seen w g t :
  entries_in seen w -> t ∉ seen -> repeat_trigger (history_of w g) t = false.
Proof.
  intros Hin Hnot. destruct (repeat_trigger _ _) eqn:E; [|reflexivity].
  apply repeat_trigger_iff in E as [pre E]. exfalso. apply Hnot.
  apply (entries_in_history seen w g t Hin). rewrite E.
  apply elem_of_app. right. apply list_elem_of_here.
Qed.

Lemma observed_texts_cons m ms :
  observed_texts (m :: ms) = observed_texts [m] ++ observed_texts ms.
Proof. unfold observed_texts. simpl. by destruct (classify m). Qed.

Lemma distinct_run cfg rng ms : forall w seen,
  entries_in seen w ->
  (forall x, x ∈ seen -> x ∉ observed_texts ms) ->
  NoDup (observed_texts ms) ->
  outbox (run cfg rng ms w) = outbox w /\
  (forall pre m post g t,
      ms = pre ++ m :: post -> classify m = Observed g t ->
      repeat_trigger (history_of (run cfg rng pre w) g) t = false).
Proof.
  induction ms as [|m0 ms IH]; intros w seen Hin Hfresh Hnd.
  - split; [reflexivity|]. intros [|? ?] ? ? ? ? ?; discriminate.
  - rewrite observed_texts_cons in Hfresh, Hnd.
    apply NoDup_app in Hnd as (_ & Hdisj & Hnd).
    assert (Hhead : forall g t, classify m0 = Observed g t ->
                      repeat_trigger (history_of w g) t = false).
    { intros g t Hc. apply (fresh_text_no_trigger seen); [done|].
      intros Hs. apply (Hfresh t Hs). apply elem_of_app. left.
      unfold observed_texts. simpl. rewrite Hc. apply list_elem_of_here. }
    destruct (IH (step cfg rng w m0) (seen ++ observed_texts [m0]))
      as [IHo IHt]; [by apply entries_in_step| |done|].
    { intros x [Hx|Hx]%elem_of_app Hx'.
      - apply (Hfresh x Hx). apply elem_of_app. by right.
      - by apply (Hdisj x). }
    split.
    + rewrite run_cons, IHo.
      destruct (classify m0) as [|t|g t] eqn:Hc.
      * by rewrite step_dropped.
      * by destruct (step_self_history cfg rng _ _ w Hc).
      * rewrite (step_observed _ _ _ _ _ _ Hc).
        by rewrite path_no_trigger by eauto.
    + intros [|m1 pre] m post g t E Hc; injection E as <- E.
      * by apply Hhead.
      * rewrite run_cons. by eapply IHt.
Qed.

Lemma entries_in_init seen : entries_in seen init_world.
Proof. intros g h x H. simpl in H. by rewrite lookup_empty in H. Qed.

(** C2: the trigger is read on the window as it is before the append and
    holds exactly when that window ends with two entries equal to the
    incoming text.  It decides the call both ways: when it fails the call
    only appends, and when it holds the call enters the gates and draws;
    an echo is sent exactly when the trigger holds, the skip gate fails,
    the repeat gate passes, the guard holds another text and the group id
    is a number.  Messages with pairwise distinct texts never trigger and
    never produce an echo. *)
Theorem C2_trigger_before_append cfg rng ms
  (Hdistinct : NoDup (observed_texts ms)) :
  (forall h t, repeat_trigger h t = true <-> exists pre, h = pre ++ [t; t]) /\
  (forall w m g t,
      classify m = Observed g t ->
      (repeat_trigger (history_of w g) t = false ->
       execute cfg rng m w = (Ok pass_on, world_after NoTrigger g t w)) /\
      (forall pre, history_of w g = pre ++ [t; t] ->
         draws_used w < draws_used (step cfg rng w m) /\
         execute cfg rng m w <> (Ok pass_on, world_after NoTrigger g t w)) /\
      (outbox (step cfg rng w m) <> outbox w <->
       repeat_trigger (history_of w g) t = true /\
       py_le (rng (draws_used w)) (effective_skip_probability cfg)
       = Some false /\
       py_le (rng (S (draws_used w))) (effective_repeat_probability cfg)
       = Some true /\
       last_repeated_message w <> Some t /\
       exists n, py_int g = Some n)) /\
  (forall pre m post g t,
      ms = pre ++ m :: post -> classify m = Observed g t ->
      repeat_trigger (history_of (run cfg rng pre init_world) g) t = false) /\
  outbox (run cfg rng ms init_world) = [].
Proof.
  split; [apply repeat_trigger_iff|]. split.
  - intros w m g t Hc. split; [|split].
    + intros Htr. rewrite (execute_observed _ _ _ _ _ _ Hc).
      by rewrite path_no_trigger.
    + intros pre Hw.
      assert (Htr : repeat_trigger (history_of w g) t = true)
        by (apply repeat_trigger_iff; eauto).
      assert (Hd : draws_used w < draws_used (step cfg rng w m)).
      { rewrite (step_observed _ _ _ _ _ _ Hc). unfold path_of.
        rewrite Htr. simpl.
        destruct (py_le _ (effective_skip_probability cfg)) as [[|]|];
          simpl; try lia.
        destruct (py_le _ (effective_repeat_probability cfg)) as [[|]|];
          simpl; try lia.
        destruct (is_last_repeated _ _); simpl; try lia.
        destruct (py_int g); simpl; lia. }
      split; [exact Hd|]. intros E. unfold step in Hd. rewrite E in Hd.
      simpl in Hd. lia.
    + rewrite (step_observed _ _ _ _ _ _ Hc). split.
      * intros Ho. apply outbox_changed_echoed in Ho as [n Ho].
        apply path_echoed_inv in Ho as (H1 & H2 & H3 & H4 & H5).
        repeat split; try done; [|by exists n].
        intros E. rewrite E in H4. simpl in H4.
        by rewrite String.eqb_refl in H4.
      * intros (H1 & H2 & H3 & H4 & n & H5).
        rewrite (path_echoed_intro _ _ _ _ _ _ n); try done.
        -- simpl. intros E. apply (f_equal length) in E.
           rewrite length_app in E. simpl in E. lia.
        -- destruct (last_repeated_message w) as [l|]; [|done]. simpl.
           destruct (String.eqb_spec t l) as [->|_]; [|done].
           by destruct H4.
  - destruct (distinct_run cfg rng ms init_world [])
      as [Ho Ht]; [apply entries_in_init| |done|].
    + by intros x ?%elem_of_nil.
    + split; [exact Ht | exact Ho].
Qed.

Lemma history_of_bounded w g :
  windows_bounded w -> length (history_of w g) <= Deque.maxlen.
Proof.
  intros Hb. unfold history_of. destruct (chat_history w !! g) eqn:E; simpl.
  - eauto.
  - unfold Deque.maxlen. lia.
Qed.

Lemma bounded_step cfg rng w m :
  windows_bounded w -> windows_bounded (step cfg rng w m).
Proof.
  intros Hb g h Hh. destruct (classify m) as [|t|g' t] eqn:Hc.
  - rewrite (step_dropped _ _ _ _ Hc) in Hh. eauto.
  - destruct (step_self_history cfg rng _ _ w Hc) as [E _].
    rewrite E in Hh. eauto.
  - rewrite (step_observed _ _ _ _ _ _ Hc) in Hh.
    destruct (decide (g' = g)) as [->|Hne].
    + simpl in Hh. rewrite lookup_insert_eq in Hh. injection Hh as <-.
      pose proof (history_of_bounded w g Hb).
      destruct (path_of _ _ _ _ _ _); try by apply append_length. done.
    + rewrite history_after_other in Hh by done. eauto.
Qed.

Lemma bounded_run cfg rng ms : forall w,
  windows_bounded w -> windows_bounded (run cfg rng ms w).
Proof.
  induction ms as [|m ms IH]; intros w Hb; [done|].
  rewrite run_cons. apply IH. by apply bounded_step.
Qed.

Lemma bounded_init : windows_bounded init_world.
Proof. intros g h H. simpl in H. by rewrite lookup_empty in H. Qed.

(** C6: after any sequence of calls no window holds more than three
    entries, a call keeps that bound from any world that has it, and a
    returning call on a full window drops its oldest entry and puts the
    new text last. *)
Theorem C6_window_bounded_fifo cfg rng ms g h
  (Hh : chat_history (run cfg rng ms init_world) !! g = Some h) :
  length h <= 3 /\
  (forall w m, windows_bounded w -> windows_bounded (step cfg rng w m)) /\
  (forall a b c d, Deque.append [a; b; c] d = [b; c; d]) /\
  (forall w m g' t a b c,
      classify m = Observed g' t ->
      history_of w g' = [a; b; c] ->
      fst (execute cfg rng m w) = Ok pass_on ->
      history_of (step cfg rng w m) g' = [b; c; t]).
Proof.
  split; [|split; [|split]].
  - apply (bounded_run cfg rng ms init_world bounded_init g h Hh).
  - intros w m. apply bounded_step.
  - reflexivity.
  - intros w m g' t a b c Hc Hw. unfold step.
    rewrite (execute_observed _ _ _ _ _ _ Hc). simpl fst. simpl snd.
    rewrite history_of_after, Hw.
    destruct (path_of _ _ _ _ _ _); simpl; try reflexivity. discriminate.
Qed.

(** ** The skip gate *)

Lemma path_skip_certain rng (q : Q) rp g t w :
  (q == 1)%Q -> (forall n, (0 <= rng n)%Q /\ (rng n < 1)%Q) ->
  path_of rng (CNum q) rp g t w = NoTrigger \/
  path_of rng (CNum q) rp g t w = Skipped.
Proof.
  intros Hq Hr. unfold path_of.
  destruct (repeat_trigger _ _); simpl; [right|by left].
  assert (E : Qle_bool (rng (draws_used w)) q = true).
  { apply Qle_bool_iff. rewrite Hq. apply Qlt_le_weak. apply Hr. }
  by rewrite E.
Qed.

(** C4: with [skip_probability] equal to 1.0, whatever the messages, the
    value of [repeat_probability] and the draws in [0,1), no call hands
    anything to the gateway. *)
Theorem C4_skip_certain_never_echoes cfg rng ms w (q : Q)
  (Hskip : cfg !! "repeat.skip_probability" = Some (CNum q))
  (Hone : (q == 1)%Q)
  (Hdraws : forall n, (0 <= rng n)%Q /\ (rng n < 1)%Q) :
  outbox (run cfg rng ms w) = outbox w.
Proof.
  assert (Hsp : effective_skip_probability cfg = CNum q).
  { unfold effective_skip_probability, get_config. by rewrite Hskip. }
  revert w. induction ms as [|m ms IH]; intros w; [done|].
  rewrite run_cons, IH. destruct (classify m) as [|t|g t] eqn:Hc.
  - by rewrite step_dropped.
  - by destruct (step_self_history cfg rng _ _ w Hc).
  - rewrite (step_observed _ _ _ _ _ _ Hc), Hsp.
    by destruct (path_skip_certain rng q (effective_repeat_probability cfg)
                   g t w Hone Hdraws) as [-> | ->].
Qed.

(** ** The guard [last_repeated_message] *)

Lemma is_last_repeated_true t last :
  is_last_repeated t last = true <-> last = Some t.
Proof.
  unfold is_last_repeated. destruct last as [l|]; [|split; discriminate].
  rewrite String.eqb_eq. split; congruence.
Qed.

Lemma guard_after_echo cfg rng w m g t :
  classify m = Observed g t ->
  outbox (step cfg rng w m) <> outbox w ->
  last_repeated_message (step cfg rng w m) = Some t.
Proof.
  intros Hc. rewrite (step_observed _ _ _ _ _ _ Hc). intros Ho.
  by apply outbox_changed_echoed in Ho as [n ->].
Qed.

Lemma guarded_step cfg rng w m a :
  last_repeated_message w = Some a ->
  classify m <> SelfAuthored a ->
  (outbox (step cfg rng w m) = outbox w /\
   last_repeated_message (step cfg rng w m) = Some a) \/
  (exists g t n, classify m = Observed g t /\ t <> a /\
     outbox (step cfg rng w m) = outbox w ++ [(n, Re.sub_mentions t)]).
Proof.
  intros Hl Hns. destruct (classify m) as [|t|g t] eqn:Hc.
  - left. by rewrite step_dropped.
  - left. unfold step. rewrite (execute_self _ _ _ _ _ Hc). simpl.
    split; [done|]. rewrite Hl.
    destruct (is_last_repeated t (Some a)) eqn:E; [|done].
    apply is_last_repeated_true in E. congruence.
  - rewrite (step_observed _ _ _ _ _ _ Hc).
    destruct (path_of _ _ _ _ _ _) as [| | | |n|e k] eqn:Hp; try by left.
    right. exists g, t, n. split; [done|]. split; [|done].
    apply path_echoed_inv in Hp as (_ & _ & _ & Hg & _).
    intros ->. rewrite Hl in Hg. simpl in Hg.
    by rewrite String.eqb_refl in Hg.
Qed.

Lemma guarded_run cfg rng a ms : forall w,
  last_repeated_message w = Some a ->
  Forall (fun m => classify m <> SelfAuthored a) ms ->
  (outbox (run cfg rng ms w) = outbox w /\
   last_repeated_message (run cfg rng ms w) = Some a) \/
  (exists pre m post g t n,
      ms = pre ++ m :: post /\
      outbox (run cfg rng pre w) = outbox w /\
      classify m = Observed g t /\ t <> a /\
      outbox (step cfg rng (run cfg rng pre w) m)
      = outbox w ++ [(n, Re.sub_mentions t)]).
Proof.
  induction ms as [|m ms IH]; intros w Hl Hns; [by left|].
  apply Forall_cons in Hns as [Hm Hns].
  destruct (guarded_step cfg rng w m a Hl Hm) as [[Ho Hl']|(g & t & n & H)].
  - rewrite run_cons.
    destruct (IH _ Hl' Hns)
      as [[Ho' Hl'']|(pre & m' & post & g & t & n & -> & Hq & Hc & Hne & He)].
    + left. split; congruence.
    + right. exists (m :: pre), m', post, g, t, n.
      rewrite run_cons. repeat split; try done; congruence.
  - right. by exists [], m, ms, g, t, n.
Qed.

Lemma self_message_lifts_guard cfg rng w m a :
  classify m = SelfAuthored a ->
  last_repeated_message w = Some a ->
  last_repeated_message (step cfg rng w m) = None.
Proof.
  intros Hc Hl. unfold step. rewrite (execute_self _ _ _ _ _ Hc). simpl.
  rewrite Hl. simpl. by rewrite String.eqb_refl.
Qed.

(** After the echo of "A", the bot's own "A" lifts the guard and the next
    "A" of the streak is echoed again. *)
Example reecho_after_self_message :
  outbox (run certain_cfg (steady (1 # 2))
            (replicate 3 (said "123" "A") ++ [bot_said "123" "A"]
             ++ [said "123" "A"]) init_world)
  = [(123%Z, "A"); (123%Z, "A")].
Proof. reflexivity. Qed.

(** C5 as the code has it: once [a] has been echoed, and as long as no
    message of the bot itself with the text [a] is processed, either
    nothing at all is echoed, or the first echo that follows is the echo of
    a text other than [a]; so a later message [a], in any group, is not
    echoed before such an echo of another text. *)
Theorem C5_no_reecho_before_another_echo cfg rng w0 m0 g0 a ms
  (Hfirst : classify m0 = Observed g0 a)
  (Hecho : outbox (step cfg rng w0 m0) <> outbox w0)
  (Hnoself : Forall (fun m => classify m <> SelfAuthored a) ms) :
  let w1 := step cfg rng w0 m0 in
  outbox (run cfg rng ms w1) = outbox w1 \/
  (exists pre m post g t n,
      ms = pre ++ m :: post /\
      outbox (run cfg rng pre w1) = outbox w1 /\
      classify m = Observed g t /\ t <> a /\
      outbox (step cfg rng (run cfg rng pre w1) m)
      = outbox w1 ++ [(n, Re.sub_mentions t)]).
Proof.
  intros w1.
  pose proof (guard_after_echo cfg rng w0 m0 g0 a Hfirst Hecho) as Hl.
  destruct (guarded_run cfg rng a ms w1 Hl Hnoself) as [[Ho _]|H]; [by left|].
  by right.
Qed.

(** ** The rewriting of mentions *)

Lemma app_cons c (s t : string) : (String c s ++ t)%string = String c (s ++ t).
Proof. reflexivity. Qed.

Lemma app_empty (t : string) : (EmptyString ++ t)%string = t.
Proof. reflexivity. Qed.

Lemma app_assoc_str (a b c : string) :
  ((a ++ b) ++ c)%string = (a ++ (b ++ c))%string.
Proof.
  induction a as [|x a IH]; [reflexivity|].
  rewrite !app_cons. by rewrite IH.
Qed.

Lemma length_app_str (a b : string) :
  String.length (a ++ b) = String.length a + String.length b.
Proof.
  induction a as [|x a IH]; [reflexivity|].
  rewrite app_cons. simpl. by rewrite IH.
Qed.

Lemma strip_prefix_iff p s r :
  Str.strip_prefix p s = Some r <-> s = (p ++ r)%string.
Proof.
  revert s. induction p as [|a p IH]; intros s.
  - rewrite app_empty. destruct s; simpl; split; congruence.
  - rewrite app_cons. destruct s as [|b s]; simpl; [split; discriminate|].
    destruct (Ascii.eqb_spec a b) as [->|Hne].
    + rewrite IH. split; congruence.
    + split; [discriminate | congruence].
Qed.

Lemma span_split p s a b :
  Str.span p s = (a, b) ->
  s = (a ++ b)%string /\ Str.all_chars p a = true /\
  match b with EmptyString => True | String c _ => p c = false end.
Proof.
  revert a b. induction s as [|c s IH]; intros a b; simpl.
  - intros [= <- <-]. auto.
  - destruct (p c) eqn:Ec.
    + destruct (Str.span p s) as [a' b']. intros [= <- <-].
      destruct (IH a' b' eq_refl) as (-> & Ha & Hb).
      rewrite app_cons. simpl. rewrite Ec. auto.
    + intros [= <- <-]. rewrite app_empty. simpl. auto.
Qed.

Lemma span_intro p (a b : string) :
  Str.all_chars p a = true ->
  match b with EmptyString => True | String c _ => p c = false end ->
  Str.span p (a ++ b) = (a, b).
Proof.
  intros Ha Hb. induction a as [|c a IH].
  - rewrite app_empty. destruct b as [|c b]; simpl; [done|]. by rewrite Hb.
  - rewrite app_cons. simpl in *. apply andb_true_iff in Ha as [Hc Ha].
    by rewrite Hc, (IH Ha).
Qed.

Lemma mention_here_iff s name rest :
  Re.mention_here s = Some (name, rest) <->
  exists digits,
    Re.is_markup name digits = true /\
    s = (Re.markup name digits ++ rest)%string.
Proof.
  unfold Re.mention_here, Re.is_markup, Re.markup. split.
  - destruct (Str.strip_prefix "@<" s) as [s1|] eqn:E1; [|discriminate].
    apply strip_prefix_iff in E1 as ->.
    destruct (Str.span Re.not_colon s1) as [nm r1] eqn:E2.
    apply span_split in E2 as (-> & Hn & _).
    destruct (Str.strip_prefix ":" r1) as [s2|] eqn:E3; [|discriminate].
    apply strip_prefix_iff in E3 as ->.
    destruct (Str.span Str.is_digit s2) as [ds r2] eqn:E4.
    apply span_split in E4 as (-> & Hd & _).
    destruct (Str.strip_prefix ">" r2) as [rs|] eqn:E5; [|discriminate].
    apply strip_prefix_iff in E5 as ->.
    destruct (Str.truthy nm) eqn:Tn; [|discriminate].
    destruct (Str.truthy ds) eqn:Td; [|discriminate].
    intros [= <- <-]. exists ds. rewrite Hn, Hd, Tn, Td. split; [reflexivity|].
    by rewrite !app_assoc_str.
  - intros (ds & Hm & ->).
    apply andb_true_iff in Hm as [Hm Hd].
    apply andb_true_iff in Hm as [Hm Td].
    apply andb_true_iff in Hm as [Tn Hn].
    rewrite !app_assoc_str.
    rewrite (proj2 (strip_prefix_iff "@<" _ _) eq_refl).
    rewrite (span_intro Re.not_colon name _ Hn) by reflexivity.
    rewrite (proj2 (strip_prefix_iff ":" _ _) eq_refl).
    rewrite (span_intro Str.is_digit ds _ Hd) by reflexivity.
    rewrite (proj2 (strip_prefix_iff ">" _ _) eq_refl).
    by rewrite Tn, Td.
Qed.

Lemma mention_shrinks s name rest :
  Re.mention_here s = Some (name, rest) ->
  String.length rest < String.length s.
Proof.
  intros (ds & _ & ->)%mention_here_iff. unfold Re.markup.
  rewrite !length_app_str. simpl. lia.
Qed.

Lemma sub_mentions_fuel_any n : forall m s,
  String.length s <= n -> String.length s <= m ->
  Re.sub_mentions_fuel n s = Re.sub_mentions_fuel m s.
Proof.
  induction n as [|n IH]; intros m s Hn Hm.
  - destruct s; [|simpl in Hn; lia]. by destruct m.
  - destruct m as [|m].
    + destruct s; [|simpl in Hm; lia]. reflexivity.
    + simpl. destruct (Re.mention_here s) as [[name rest]|] eqn:E.
      * apply mention_shrinks in E. rewrite (IH m rest) by lia. reflexivity.
      * destruct s as [|c s]; [reflexivity|]. simpl in Hn, Hm.
        rewrite (IH m s) by lia. reflexivity.
Qed.

Lemma sub_mentions_unfold s :
  Re.sub_mentions s =
  match Re.mention_here s with
  | Some (name, rest) => String "@" (name ++ Re.sub_mentions rest)
  | None =>
      match s with
      | EmptyString => EmptyString
      | String c s' => String c (Re.sub_mentions s')
      end
  end.
Proof.
  unfold Re.sub_mentions. destruct s as [|c s].
  - reflexivity.
  - cbn [String.length Re.sub_mentions_fuel].
    destruct (Re.mention_here (String c s)) as [[name rest]|] eqn:E.
    + apply mention_shrinks in E. simpl in E.
      rewrite (sub_mentions_fuel_any (String.length s) (String.length rest))
        by lia. reflexivity.
    + reflexivity.
Qed.

Lemma sub_mentions_markup name digits rest :
  Re.is_markup name digits = true ->
  Re.sub_mentions (Re.markup name digits ++ rest)
  = String "@" (name ++ Re.sub_mentions rest).
Proof.
  intros Hm. rewrite sub_mentions_unfold.
  assert (E : Re.mention_here (Re.markup name digits ++ rest)
              = Some (name, rest)) by (apply mention_here_iff; eauto).
  by rewrite E.
Qed.

Lemma sub_mentions_plain c s :
  Re.mention_here (String c s) = None ->
  Re.sub_mentions (String c s) = String c (Re.sub_mentions s).
Proof. intros E. by rewrite sub_mentions_unfold, E. Qed.

(** C9: when a call echoes, the text handed to the gateway is the text of
    the message with each mention markup the scan meets, left to right,
    replaced by [@] and its name, while the window and the guard receive
    the text of the message as it came. *)
Theorem C9_mentions_rewritten_in_echo_only cfg rng w m g t
  (Hobserved : classify m = Observed g t)
  (Hecho : outbox (step cfg rng w m) <> outbox w) :
  (exists n, py_int g = Some n /\
     outbox (step cfg rng w m) = outbox w ++ [(n, Re.sub_mentions t)]) /\
  history_of (step cfg rng w m) g = Deque.append (history_of w g) t /\
  last_repeated_message (step cfg rng w m) = Some t /\
  (forall name digits rest,
      Re.is_markup name digits = true ->
      Re.sub_mentions (Re.markup name digits ++ rest)
      = String "@" (name ++ Re.sub_mentions rest)) /\
  (forall c s,
      Re.mention_here (String c s) = None ->
      Re.sub_mentions (String c s) = String c (Re.sub_mentions s)) /\
  Re.sub_mentions EmptyString = EmptyString /\
  (forall s name rest,
      Re.mention_here s = Some (name, rest) <->
      exists digits, Re.is_markup name digits = true /\
                     s = (Re.markup name digits ++ rest)%string).
Proof.
  rewrite (step_observed _ _ _ _ _ _ Hobserved) in *.
  apply outbox_changed_echoed in Hecho as [n Hp]. rewrite Hp.
  apply path_echoed_inv in Hp as (_ & _ & _ & _ & Hi).
  split; [by exists n|]. rewrite history_of_after.
  split; [reflexivity|]. split; [reflexivity|].
  split; [apply sub_mentions_markup|]. split; [apply sub_mentions_plain|].
  split; [reflexivity|]. apply mention_here_iff.
Qed.

(** ** Streaks *)

Lemma path_failed_trigger rng sp rp g t w e k :
  path_of rng sp rp g t w = Failed e k ->
  repeat_trigger (history_of w g) t = true.
Proof.
  unfold path_of. destruct (repeat_trigger _ _); [done|discriminate].
Qed.

Lemma append_ends (h : list string) t : exists pre, Deque.append h t = pre ++ [t].
Proof.
  unfold Deque.append. destruct (length h <? Deque.maxlen); eauto.
Qed.

Lemma append_after_same (pre : list string) t :
  exists pre', Deque.append (pre ++ [t]) t = pre' ++ [t; t].
Proof.
  unfold Deque.append. destruct (length (pre ++ [t]) <? Deque.maxlen) eqn:E.
  - exists pre. by rewrite <- app_assoc.
  - apply Nat.ltb_ge in E. rewrite length_app in E.
    unfold Deque.maxlen in E. simpl in E.
    destruct pre as [|x pre]; [simpl in E; lia|].
    exists pre. simpl. rewrite drop_0. by rewrite <- app_assoc.
Qed.

Section Streak.

Variable cfg : gmap string cfgval.
Variable rng : nat -> Q.
Variables g t : string.

Lemma observed_ends w m :
  classify m = Observed g t ->
  exists pre, history_of (step cfg rng w m) g = pre ++ [t].
Proof.
  intros Hc. rewrite (step_observed _ _ _ _ _ _ Hc), history_of_after.
  destruct (path_of _ _ _ _ _ _) eqn:Hp; try apply append_ends.
  apply path_failed_trigger, repeat_trigger_iff in Hp as [pre ->].
  exists (pre ++ [t]). by rewrite <- app_assoc.
Qed.

Lemma observed_twice w m :
  (exists pre, history_of w g = pre ++ [t]) ->
  classify m = Observed g t ->
  repeat_trigger (history_of (step cfg rng w m) g) t = true.
Proof.
  intros [pre Hh] Hc.
  rewrite (step_observed _ _ _ _ _ _ Hc), history_of_after.
  destruct (path_of _ _ _ _ _ _) eqn:Hp;
    try (rewrite Hh; apply repeat_trigger_iff, append_after_same).
  by apply path_failed_trigger in Hp.
Qed.

Lemma trigger_kept w m :
  repeat_trigger (history_of w g) t = true ->
  classify m = Observed g t ->
  repeat_trigger (history_of (step cfg rng w m) g) t = true.
Proof.
  intros [pre Hh]%repeat_trigger_iff Hc. apply observed_twice; [|done].
  exists (pre ++ [t]). rewrite Hh. by rewrite <- app_assoc.
Qed.

Lemma trigger_kept_run ms : forall w,
  Forall (fun m => classify m = Observed g t) ms ->
  repeat_trigger (history_of w g) t = true ->
  repeat_trigger (history_of (run cfg rng ms w) g) t = true.
Proof.
  induction ms as [|m ms IH]; intros w Hall Htr; [done|].
  apply Forall_cons in Hall as [Hm Hall].
  rewrite run_cons. apply IH; [done|]. by apply trigger_kept.
Qed.

Lemma streak_triggers ms w :
  Forall (fun m => classify m = Observed g t) ms ->
  2 <= length ms ->
  repeat_trigger (history_of (run cfg rng ms w) g) t = true.
Proof.
  intros Hall Hl. destruct ms as [|m1 [|m2 ms]]; simpl in Hl; try lia.
  apply Forall_cons in Hall as [H1 Hall].
  apply Forall_cons in Hall as [H2 Hall].
  rewrite !run_cons. apply trigger_kept_run; [done|].
  apply observed_twice; [|done]. by apply observed_ends.
Qed.

End Streak.

(** ** Results of the calls *)

Lemma execute_result cfg rng m w :
  fst (execute cfg rng m w) = Ok pass_on \/
  (exists g t e k,
      classify m = Observed g t /\
      path_of rng (effective_skip_probability cfg)
        (effective_repeat_probability cfg) g t w = Failed e k /\
      fst (execute cfg rng m w) = Raised e).
Proof.
  destruct (classify m) as [|t|g t] eqn:Hc.
  - left. by rewrite execute_dropped.
  - left. by rewrite (execute_self _ _ _ _ _ Hc).
  - rewrite (execute_observed _ _ _ _ _ _ Hc). simpl.
    destruct (path_of _ _ _ _ _ _) as [| | | |n|e k] eqn:Hp; try by left.
    right. by exists g, t, e, k.
Qed.

(** What a call does to the windows: other groups keep theirs, a stopped
    message or one of the bot changes none, and a returning call on an
    observed message appends its text once. *)
Lemma execute_frame cfg rng m w :
  match classify m with
  | Dropped | SelfAuthored _ => chat_history (step cfg rng w m) = chat_history w
  | Observed g t =>
      (forall g', g <> g' ->
         chat_history (step cfg rng w m) !! g' = chat_history w !! g') /\
      (fst (execute cfg rng m w) = Ok pass_on ->
       history_of (step cfg rng w m) g = Deque.append (history_of w g) t)
  end.
Proof.
  destruct (classify m) as [|t|g t] eqn:Hc.
  - by rewrite step_dropped.
  - by destruct (step_self_history cfg rng _ _ w Hc).
  - unfold step. rewrite (execute_observed _ _ _ _ _ _ Hc). simpl fst.
    simpl snd. split.
    + intros g' Hne. by apply history_after_other.
    + rewrite history_of_after.
      destruct (path_of _ _ _ _ _ _); simpl; try reflexivity. discriminate.
Qed.

(** Three equal messages in a group without window, the guard unset, the
    probabilities 1.0 and 0.0: one echo, when the group id is a number and
    the skip draw is not 0.0. *)
Lemma three_in_a_row_echo cfg rng w g t n m1 m2 m3 :
  effective_skip_probability cfg = CNum 0 ->
  effective_repeat_probability cfg = CNum 1 ->
  (forall i, (0 < rng i)%Q /\ (rng i < 1)%Q) ->
  chat_history w !! g = None ->
  last_repeated_message w = None ->
  classify m1 = Observed g t ->
  classify m2 = Observed g t ->
  classify m3 = Observed g t ->
  py_int g = Some n ->
  outbox (run cfg rng [m1; m2; m3] w) = outbox w ++ [(n, Re.sub_mentions t)] /\
  last_repeated_message (run cfg rng [m1; m2; m3] w) = Some t.
Proof.
  intros Hsp Hrp Hr Hw Hl H1 H2 H3 Hn.
  assert (Hh : history_of w g = []) by (unfold history_of; by rewrite Hw).
  rewrite !run_cons. simpl run.
  rewrite (step_observed _ _ _ _ _ w H1).
  rewrite (path_no_trigger _ _ _ _ _ w) by (by rewrite Hh).
  set (w1 := world_after NoTrigger g t w).
  assert (Hh1 : history_of w1 g = [t])
    by (unfold w1; rewrite history_of_after, Hh; reflexivity).
  rewrite (step_observed _ _ _ _ _ w1 H2).
  rewrite (path_no_trigger _ _ _ _ _ w1) by (by rewrite Hh1).
  set (w2 := world_after NoTrigger g t w1).
  assert (Hh2 : history_of w2 g = [t; t])
    by (unfold w2; rewrite history_of_after, Hh1; reflexivity).
  rewrite (step_observed _ _ _ _ _ w2 H3).
  assert (Hp : path_of rng (effective_skip_probability cfg)
                 (effective_repeat_probability cfg) g t w2 = Echoed n).
  { apply path_echoed_intro; [| | | |done].
    - rewrite Hh2. apply repeat_trigger_iff. by exists [].
    - rewrite Hsp. simpl. f_equal. destruct (Qle_bool _ 0) eqn:E; [|done].
      apply Qle_bool_iff in E. destruct (Hr (draws_used w2)) as [Hpos _].
      exfalso. by apply (Qlt_not_le _ _ Hpos).
    - rewrite Hrp. simpl. f_equal. apply Qle_bool_iff, Qlt_le_weak, Hr.
    - simpl. by rewrite Hl. }
  rewrite Hp. split; reflexivity.
Qed.

(** C1, at the draw 0.0: with [skip_probability = 0.0] the skip gate
    [random.random() <= skip_probability] lets the third message through
    the skip branch; nothing is echoed and the guard stays unset. *)
Theorem C1_zero_draw_takes_skip_branch :
  let messages := replicate 3 (said "123" "A") in
  let w := run certain_cfg (steady 0) messages init_world in
  (forall n, (0 <= steady 0 n)%Q /\ (steady 0 n < 1)%Q) /\
  Forall (fun m => classify m = Observed "123" "A") messages /\
  outbox w = [] /\ last_repeated_message w = None.
Proof.
  split; [|split; [|split]].
  - intros n. unfold steady. split; [apply Qle_refl | reflexivity].
  - repeat constructor.
  - reflexivity.
  - reflexivity.
Qed.

(** C3, at a group id that is no number: [int(group_id)] is evaluated in
    [execute], outside the [try] of [send_group_msg], and its [ValueError]
    leaves the handler. *)
Theorem C3_value_error_leaves_execute :
  let w := run certain_cfg (steady (1 # 2)) (replicate 2 (said "abc" "A"))
             init_world in
  fst (execute certain_cfg (steady (1 # 2)) (said "abc" "A") w)
  = Raised ValueError.
Proof. reflexivity. Qed.

(** C7, at the same call: the message passes every filter and is not of
    the bot, yet its text is not appended, because the exception leaves
    [execute] before [history.append]. *)
Theorem C7_failed_echo_appends_nothing :
  let w := run certain_cfg (steady (1 # 2)) (replicate 2 (said "abc" "A"))
             init_world in
  let m := said "abc" "A" in
  classify m = Observed "abc" "A" /\
  history_of w "abc" = ["A"; "A"] /\
  history_of (step certain_cfg (steady (1 # 2)) w m) "abc" = ["A"; "A"].
Proof. repeat split. Qed.

(** C8, at a configuration without the keys of the repeat section: the
    handler falls back on 1.0 and 0.0, the schema declares 0.7 and 0.1,
    and a repeat draw of 0.75 tells them apart. *)
Theorem C8_fallbacks_are_not_the_schema_defaults :
  effective_repeat_probability ∅ = CNum 1 /\
  effective_skip_probability ∅ = CNum 0 /\
  schema_default "repeat" "repeat_probability" = Some (CNum (7 # 10)) /\
  schema_default "repeat" "skip_probability" = Some (CNum (1 # 10)) /\
  outbox (run ∅ (steady (3 # 4)) (replicate 3 (said "123" "A")) init_world)
  = [(123%Z, "A")] /\
  outbox (run schema_cfg (steady (3 # 4)) (replicate 3 (said "123" "A"))
            init_world) = [].
Proof. repeat split. Qed.

(** C5 as stated fails: after the echo of "A" an echo of "B" replaces the
    guard, and the next streak of "A" is echoed again, with no message of
    the bot in between. *)
Lemma C5_reecho_after_another_echo :
  let w1 := run certain_cfg (steady (1 # 2)) (replicate 3 (said "123" "A"))
              init_world in
  let later := replicate 3 (said "456" "B") ++ replicate 3 (said "456" "A") in
  outbox w1 = [(123%Z, "A")] /\
  last_repeated_message w1 = Some "A" /\
  Forall (fun m => forall t, classify m <> SelfAuthored t) later /\
  outbox (run certain_cfg (steady (1 # 2)) later w1)
  = [(123%Z, "A"); (456%Z, "B"); (456%Z, "A")].
Proof.
  split; [reflexivity|]. split; [reflexivity|]. split; [|reflexivity].
  repeat constructor; intros t; discriminate.
Qed.

(** C10: in a streak of equal messages of one group, every message from
    the third on finds the trigger true; such a message is echoed when its
    two draws pass the gates, the guard holds another text and the group id
    is a number; and the fourth message is echoed where the third failed
    the repeat gate, or took the skip branch. *)
Theorem C10_trigger_on_every_later_message cfg rng w g t ms k m
  (Hstreak : Forall (fun m => classify m = Observed g t) ms)
  (Hthird : 2 <= k)
  (Hm : ms !! k = Some m) :
  let wk := run cfg rng (take k ms) w in
  repeat_trigger (history_of wk g) t = true /\
  (forall n,
      py_le (rng (draws_used wk)) (effective_skip_probability cfg)
      = Some false ->
      py_le (rng (S (draws_used wk))) (effective_repeat_probability cfg)
      = Some true ->
      last_repeated_message wk <> Some t ->
      py_int g = Some n ->
      outbox (step cfg rng wk m) = outbox wk ++ [(n, Re.sub_mentions t)]) /\
  (let four := replicate 4 (said "123" "A") in
   let failed_third := draws [1 # 2; 3 # 4; 1 # 2; 3 # 8]%Q in
   let skipped_third := draws [0; 1 # 2; 3 # 8]%Q in
   outbox (run even_cfg failed_third (take 3 four) init_world) = [] /\
   outbox (run even_cfg failed_third four init_world) = [(123%Z, "A")] /\
   outbox (run even_cfg skipped_third (take 3 four) init_world) = [] /\
   outbox (run even_cfg skipped_third four init_world) = [(123%Z, "A")]).
Proof.
  intros wk.
  assert (Htr : repeat_trigger (history_of wk g) t = true).
  { apply streak_triggers.
    - by apply Forall_take.
    - rewrite length_take. apply lookup_lt_Some in Hm. lia. }
  split; [exact Htr|]. split; [|repeat split].
  intros n H1 H2 Hl Hn.
  assert (Hc : classify m = Observed g t).
  { rewrite Forall_lookup in Hstreak. by apply (Hstreak k). }
  rewrite (step_observed _ _ _ _ _ _ Hc).
  rewrite (path_echoed_intro _ _ _ _ _ wk n); try done.
  destruct (is_last_repeated t (last_repeated_message wk)) eqn:E; [|done].
  by apply is_last_repeated_true in E.
Qed.

(** ** The theorems at sample inputs *)

Lemma C2_distinct_texts_witness :
  let ms := [said "123" "A"; said "123" "B"; said "123" "C"] in
  NoDup (observed_texts ms) /\
  outbox (run certain_cfg (steady (1 # 2)) ms init_world) = [].
Proof.
  intros ms.
  assert (H : NoDup (observed_texts ms)).
  { apply (bool_decide_unpack _). vm_compute. exact I. }
  split; [exact H|].
  apply (C2_trigger_before_append certain_cfg (steady (1 # 2)) ms H).
Defined.

Lemma C4_skip_certain_witness :
  let ms := replicate 4 (said "123" "A") in
  always_skip_cfg !! "repeat.skip_probability" = Some (CNum 1) /\
  (1 == 1)%Q /\
  (forall n, (0 <= steady (1 # 2) n)%Q /\ (steady (1 # 2) n < 1)%Q) /\
  outbox (run always_skip_cfg (steady (1 # 2)) ms init_world) = [].
Proof.
  intros ms.
  assert (H1 : always_skip_cfg !! "repeat.skip_probability" = Some (CNum 1))
    by reflexivity.
  assert (H2 : (1 == 1)%Q) by reflexivity.
  assert (H3 : forall n, (0 <= steady (1 # 2) n)%Q /\ (steady (1 # 2) n < 1)%Q).
  { intros n. unfold steady, Qle, Qlt. simpl. lia. }
  split; [exact H1|]. split; [exact H2|]. split; [exact H3|].
  apply (C4_skip_certain_never_echoes always_skip_cfg (steady (1 # 2)) ms
           init_world 1 H1 H2 H3).
Defined.

Lemma C5_guard_witness :
  let cfg := certain_cfg in
  let rng := steady (1 # 2) in
  let w0 := run cfg rng (replicate 2 (said "123" "A")) init_world in
  let m0 := said "123" "A" in
  let ms := replicate 3 (said "456" "A") in
  let w1 := step cfg rng w0 m0 in
  classify m0 = Observed "123" "A" /\
  outbox (step cfg rng w0 m0) <> outbox w0 /\
  Forall (fun m => classify m <> SelfAuthored "A") ms /\
  (outbox (run cfg rng ms w1) = outbox w1 \/
   (exists pre m post g t n,
       ms = pre ++ m :: post /\
       outbox (run cfg rng pre w1) = outbox w1 /\
       classify m = Observed g t /\ t <> "A" /\
       outbox (step cfg rng (run cfg rng pre w1) m)
       = outbox w1 ++ [(n, Re.sub_mentions t)])).
Proof.
  intros cfg rng w0 m0 ms w1.
  assert (H1 : classify m0 = Observed "123" "A") by reflexivity.
  assert (H2 : outbox (step cfg rng w0 m0) <> outbox w0)
    by (vm_compute; discriminate).
  assert (H3 : Forall (fun m => classify m <> SelfAuthored "A") ms)
    by (repeat constructor; vm_compute; discriminate).
  split; [exact H1|]. split; [exact H2|]. split; [exact H3|].
  apply (C5_no_reecho_before_another_echo cfg rng w0 m0 "123" "A" ms H1 H2 H3).
Defined.

Lemma C6_window_witness :
  let ms := [said "123" "A"; said "123" "B"; said "123" "C"; said "123" "D"] in
  chat_history (run certain_cfg (steady (1 # 2)) ms init_world) !! "123"
  = Some ["B"; "C"; "D"] /\
  length ["B"; "C"; "D"] <= 3.
Proof.
  intros ms.
  assert (H : chat_history (run certain_cfg (steady (1 # 2)) ms init_world)
              !! "123" = Some ["B"; "C"; "D"]) by reflexivity.
  split; [exact H|].
  apply (C6_window_bounded_fifo certain_cfg (steady (1 # 2)) ms "123" _ H).
Defined.

Lemma C9_mention_witness :
  let cfg := certain_cfg in
  let rng := steady (1 # 2) in
  let t := "hi @<bob:123>!" in
  let w := run cfg rng (replicate 2 (said "123" t)) init_world in
  let m := said "123" t in
  classify m = Observed "123" t /\
  outbox (step cfg rng w m) <> outbox w /\
  (exists n, py_int "123" = Some n /\
     outbox (step cfg rng w m) = outbox w ++ [(n, Re.sub_mentions t)]) /\
  Re.sub_mentions t = "hi @bob!" /\
  history_of (step cfg rng w m) "123" = [t; t; t].
Proof.
  intros cfg rng t w m.
  assert (H1 : classify m = Observed "123" t) by reflexivity.
  assert (H2 : outbox (step cfg rng w m) <> outbox w)
    by (vm_compute; discriminate).
  split; [exact H1|]. split; [exact H2|].
  split; [|split; reflexivity].
  apply (C9_mentions_rewritten_in_echo_only cfg rng w m "123" t H1 H2).
Defined.

Lemma C10_streak_witness :
  let ms := replicate 5 (said "123" "A") in
  Forall (fun m => classify m = Observed "123" "A") ms /\
  2 <= 4 /\
  ms !! 4 = Some (said "123" "A") /\
  repeat_trigger
    (history_of (run even_cfg (steady (3 # 4)) (take 4 ms) init_world) "123")
    "A" = true.
Proof.
  intros ms.
  assert (H1 : Forall (fun m => classify m = Observed "123" "A") ms)
    by (repeat constructor).
  assert (H2 : 2 <= 4) by lia.
  assert (H3 : ms !! 4 = Some (said "123" "A")) by reflexivity.
  split; [exact H1|]. split; [exact H2|]. split; [exact H3|].
  apply (C10_trigger_on_every_later_message even_cfg (steady (3 # 4))
           init_world "123" "A" ms 4 (said "123" "A") H1 H2 H3).
Defined.

(** * Further properties of the helpers and of the handler *)

(** ** [str.strip] and [_first_text] *)

Lemma lstrip_head s :
  match Str.lstrip s with
  | EmptyString => True
  | String c _ => Str.is_space c = false
  end.
Proof.
  induction s as [|c s IH]; simpl; [done|].
  destruct (Str.is_space c) eqn:E; [exact IH|]. exact E.
Qed.

Lemma rstrip_head s :
  match s with
  | String c _ => Str.is_space c = false
  | EmptyString => True
  end ->
  match Str.rstrip s with
  | EmptyString => s = EmptyString
  | String c _ => Str.is_space c = false
  end.
Proof.
  destruct s as [|c s]; simpl; [done|]. intros H. rewrite H. simpl. exact H.
Qed.

Lemma rstrip_idem s : Str.rstrip (Str.rstrip s) = Str.rstrip s.
Proof.
  induction s as [|c s IH]; simpl; [done|].
  destruct (Str.is_space c && Str.is_empty (Str.rstrip s)) eqn:E; [done|].
  simpl. rewrite IH, E. done.
Qed.

Lemma lstrip_fixed s :
  match s with
  | String c _ => Str.is_space c = false
  | EmptyString => True
  end -> Str.lstrip s = s.
Proof. destruct s as [|c s]; simpl; [done|]. by intros ->. Qed.

Lemma strip_head s :
  match Str.strip s with
  | EmptyString => True
  | String c _ => Str.is_space c = false
  end.
Proof.
  unfold Str.strip. pose proof (lstrip_head s) as H.
  apply rstrip_head in H. destruct (Str.rstrip (Str.lstrip s)); done.
Qed.

Lemma strip_idem s : Str.strip (Str.strip s) = Str.strip s.
Proof.
  unfold Str.strip at 1. rewrite lstrip_fixed by apply strip_head.
  unfold Str.strip. apply rstrip_idem.
Qed.

(** The last character of a stripped text is no whitespace either. *)
Lemma rstrip_last s r c :
  Str.rstrip s = (r ++ String c EmptyString)%string -> Str.is_space c = false.
Proof.
  revert r. induction s as [|a s IH]; intros r; simpl.
  - destruct r; discriminate.
  - destruct (Str.is_space a && Str.is_empty (Str.rstrip s)) eqn:E.
    + destruct r; discriminate.
    + destruct r as [|b r]; simpl.
      * intros [= -> Hs]. rewrite Hs in E. simpl in E.
        by rewrite andb_true_r in E.
      * intros [= _ Hs]. by apply (IH r).
Qed.

Lemma first_text_blank v vals :
  blank v = true -> _first_text (v :: vals) = _first_text vals.
Proof.
  unfold blank. destruct v; simpl; try done;
    unfold Str.truthy; by intros ->.
Qed.

Lemma first_text_found v vals :
  blank v = false -> _first_text (v :: vals) = Str.strip (py_str v).
Proof.
  unfold blank. destruct v; simpl; try done;
    unfold Str.truthy; by intros ->.
Qed.

(** X1: [_first_text] returns the stripped text of the first candidate
    that is not [None] and not blank, whatever follows it. *)
Theorem X1_first_text_first_candidate_wins pre v post
  (Hpre : Forall (fun u => blank u = true) pre)
  (Hv : blank v = false) :
  _first_text (pre ++ v :: post) = Str.strip (py_str v) /\
  Str.truthy (_first_text (pre ++ v :: post)) = true.
Proof.
  induction Hpre as [|u pre Hu _ IH].
  - simpl app. rewrite (first_text_found v post Hv). split; [done|].
    unfold blank in Hv. unfold Str.truthy.
    destruct v; simpl in *; try done; by rewrite Hv.
  - simpl app. by rewrite (first_text_blank u _ Hu).
Qed.

(** X2: [_first_text] returns the empty string exactly when every
    candidate is [None] or blank. *)
Theorem X2_first_text_empty_iff vals :
  _first_text vals = EmptyString <-> Forall (fun v => blank v = true) vals.
Proof.
  induction vals as [|v vals IH].
  - split; [constructor | reflexivity].
  - destruct (blank v) eqn:Hb.
    + rewrite (first_text_blank v vals Hb), IH. split.
      * by constructor.
      * by intros [_ ?]%Forall_cons.
    + rewrite (first_text_found v vals Hb). split.
      * intros E. unfold blank in Hb. rewrite E in Hb.
        destruct v; simpl in *; done.
      * intros [Hv _]%Forall_cons. congruence.
Qed.

Lemma first_text_stripped vals :
  Str.strip (_first_text vals) = _first_text vals.
Proof.
  induction vals as [|v vals IH]; [reflexivity|].
  destruct (blank v) eqn:Hb.
  - by rewrite (first_text_blank v vals Hb).
  - rewrite (first_text_found v vals Hb). apply strip_idem.
Qed.

(** X3: what [_first_text] returns carries no whitespace at either end:
    stripping it again changes nothing, and its first and its last
    character are no whitespace. *)
Theorem X3_first_text_is_stripped vals :
  Str.strip (_first_text vals) = _first_text vals /\
  (forall c r, _first_text vals = String c r -> Str.is_space c = false) /\
  (forall r c, _first_text vals = (r ++ String c EmptyString)%string ->
               Str.is_space c = false).
Proof.
  split; [apply first_text_stripped|]. split.
  - intros c r E. pose proof (strip_head (_first_text vals)) as H.
    rewrite first_text_stripped, E in H. exact H.
  - intros r c E. rewrite <- first_text_stripped in E.
    unfold Str.strip in E. by apply rstrip_last in E.
Qed.

(** X4: [_first_text] over two lists of candidates is [_first_text] of the
    first list when that finds a text, else of the second. *)
Theorem X4_first_text_app a b :
  _first_text (a ++ b) =
  if Str.truthy (_first_text a) then _first_text a else _first_text b.
Proof.
  induction a as [|v a IH]; [reflexivity|]. simpl app.
  destruct (blank v) eqn:Hb.
  - by rewrite !(first_text_blank v _ Hb).
  - rewrite !(first_text_found v _ Hb).
    unfold blank in Hb. unfold Str.truthy.
    destruct v; simpl in *; try done; by rewrite Hb.
Qed.

Lemma X1_first_candidate_witness :
  let pre := [PNone; PStr "  "] in
  let v := PInt 42 in
  Forall (fun u => blank u = true) pre /\ blank v = false /\
  _first_text (pre ++ v :: [PStr "x"]) = Str.strip (py_str v).
Proof.
  intros pre v.
  assert (H1 : Forall (fun u => blank u = true) pre) by (repeat constructor).
  assert (H2 : blank v = false) by reflexivity.
  split; [exact H1|]. split; [exact H2|].
  apply (X1_first_text_first_candidate_wins pre v [PStr "x"] H1 H2).
Defined.

(** ** [str.split] and [_dig] *)

Lemma split_nonempty sep s : Str.split sep s <> [].
Proof.
  destruct s as [|c s]; simpl; [done|].
  destruct (Ascii.eqb c sep); [done|]. by destruct (Str.split sep s).
Qed.

Lemma split_app sep (a b : string) :
  Str.split sep (a ++ String sep b) = Str.split sep a ++ Str.split sep b.
Proof.
  induction a as [|c a IH].
  - rewrite app_empty. simpl. by rewrite Ascii.eqb_refl.
  - rewrite app_cons. simpl. destruct (Ascii.eqb c sep); rewrite IH; [done|].
    pose proof (split_nonempty sep a). by destruct (Str.split sep a).
Qed.

Lemma dig_loop_none {O : Type} (is_none : O -> bool)
  (attr item : O -> string -> option O) (none : O) segs d :
  is_none none = true -> segs <> [] ->
  dig_loop is_none attr item none segs d = d.
Proof. intros Hn Hs. destruct segs; [done|]. simpl. by rewrite Hn. Qed.

Lemma dig_loop_app {O : Type} (is_none : O -> bool)
  (attr item : O -> string -> option O) (none : O) p q d : forall obj,
  is_none none = true -> q <> [] ->
  dig_loop is_none attr item obj (p ++ q) d
  = dig_loop is_none attr item (dig_loop is_none attr item obj p none) q d.
Proof.
  induction p as [|seg p IH]; intros obj Hn Hq; [reflexivity|]. simpl.
  destruct (is_none obj); [by rewrite dig_loop_none|].
  destruct (attr obj seg); [by apply IH|].
  destruct (item obj seg); [by apply IH|]. by rewrite dig_loop_none.
Qed.

Lemma dig_segments_loop segs d : forall obj,
  dig_segments obj segs d
  = dig_loop pyval_is_none pyval_attr pyval_item obj segs d.
Proof.
  induction segs as [|seg segs IH]; intros obj; [reflexivity|]. simpl.
  destruct obj; simpl; try reflexivity.
  - destruct (assoc seg items); [apply IH|reflexivity].
  - destruct (assoc seg attrs); [apply IH|reflexivity].
Qed.

(** X5: for any kind of object, with [hasattr], [getattr] and the dict
    lookup read as they come, digging a dotted path is digging its first
    part and then, from what that gives with [None] as default, its second
    part; a part that is missing, or that leads to [None], makes the whole
    the default. *)
Theorem X5_dig_composes {O : Type} (is_none : O -> bool)
  (attr item : O -> string -> option O) (none obj : O) (p q : string) (d : O)
  (Hnone : is_none none = true) :
  dig_path is_none attr item obj (p ++ String "." q) d
  = dig_path is_none attr item (dig_path is_none attr item obj p none) q d.
Proof.
  unfold dig_path. rewrite split_app.
  apply dig_loop_app; [exact Hnone | apply split_nonempty].
Qed.

Lemma X5_dig_witness :
  let m := group_message "123" "A" false in
  pyval_is_none PNone = true /\
  dig_path pyval_is_none pyval_attr pyval_item m
    ("message_base_info" ++ String "." "group_id") PNone
  = dig_path pyval_is_none pyval_attr pyval_item
      (dig_path pyval_is_none pyval_attr pyval_item m "message_base_info"
         PNone) "group_id" PNone.
Proof.
  intros m.
  assert (H : pyval_is_none PNone = true) by reflexivity.
  split; [exact H|].
  apply (X5_dig_composes pyval_is_none pyval_attr pyval_item PNone m
           "message_base_info" "group_id" PNone H).
Defined.

(** ** The filters *)

Lemma classify_dict_not_self shown items t :
  classify (Some (PDict shown items)) <> SelfAuthored t.
Proof.
  simpl. repeat (match goal with |- context [if ?b then _ else _] =>
                   destruct b end; try discriminate).
Qed.

Lemma guard_step cfg rng w m :
  last_repeated_message (step cfg rng w m) = last_repeated_message w \/
  (exists t, classify m = SelfAuthored t /\
             last_repeated_message w = Some t /\
             last_repeated_message (step cfg rng w m) = None) \/
  (exists g t n, classify m = Observed g t /\
                 outbox (step cfg rng w m)
                 = outbox w ++ [(n, Re.sub_mentions t)] /\
                 last_repeated_message (step cfg rng w m) = Some t).
Proof.
  destruct (classify m) as [|t|g t] eqn:Hc.
  - left. by rewrite step_dropped.
  - unfold step. rewrite (execute_self _ _ _ _ _ Hc). simpl.
    destruct (is_last_repeated t (last_repeated_message w)) eqn:E; [|by left].
    right. left. exists t. apply is_last_repeated_true in E. auto.
  - rewrite (step_observed _ _ _ _ _ _ Hc).
    destruct (path_of _ _ _ _ _ _) as [| | | |n|e k]; try by left.
    right. right. by exists g, t, n.
Qed.

(** X6: a record given as a dictionary is never taken for a message of the
    bot, whatever it holds under [is_self] ([getattr] reads attributes
    only): such a message never lifts the guard. *)
Theorem X6_dict_message_never_self cfg rng w shown items a
  (Hguard : last_repeated_message w = Some a) :
  (forall t, classify (Some (PDict shown items)) <> SelfAuthored t) /\
  is_Some (last_repeated_message
             (step cfg rng w (Some (PDict shown items)))).
Proof.
  split; [intros t; apply classify_dict_not_self|].
  destruct (guard_step cfg rng w (Some (PDict shown items)))
    as [E|[(t & Hc & _)|(g & t & n & _ & _ & E)]].
  - rewrite E, Hguard. eauto.
  - by apply classify_dict_not_self in Hc.
  - rewrite E. eauto.
Qed.

Lemma X6_dict_witness :
  let w := run certain_cfg (steady (1 # 2)) (replicate 3 (said "123" "A"))
             init_world in
  let items := [("group_id", PStr "123"); ("text", PStr "A");
                ("is_self", PBool true)] in
  last_repeated_message w = Some "A" /\
  is_Some (last_repeated_message
             (step certain_cfg (steady (1 # 2)) w (Some (PDict "{}" items)))).
Proof.
  intros w items.
  assert (H : last_repeated_message w = Some "A") by reflexivity.
  split; [exact H|].
  apply (X6_dict_message_never_self certain_cfg (steady (1 # 2)) w "{}"
           items "A" H).
Defined.

Lemma entries_in_weaken seen seen' w :
  (forall x, x ∈ seen -> x ∈ seen') -> entries_in seen w ->
  entries_in seen' w.
Proof. intros Hs H g h x Hh Hx. eauto. Qed.

Lemma entries_in_run cfg rng ms : forall seen w,
  entries_in seen w ->
  entries_in (seen ++ observed_texts ms) (run cfg rng ms w).
Proof.
  induction ms as [|m ms IH]; intros seen w Hin.
  - simpl. eapply entries_in_weaken; [|done]. intros x Hx.
    apply elem_of_app. by left.
  - rewrite run_cons, observed_texts_cons.
    eapply entries_in_weaken; [|apply IH, entries_in_step, Hin].
    intros x. rewrite !elem_of_app. tauto.
Qed.

Lemma observed_texts_elem ms t :
  t ∈ observed_texts ms -> exists m g, m ∈ ms /\ classify m = Observed g t.
Proof.
  unfold observed_texts. rewrite list_elem_of_omap. intros (m & Hm & Ht).
  destruct (classify m) as [| |g t'] eqn:Hc; try discriminate.
  injection Ht as ->. eauto.
Qed.

(** X7: after any sequence of calls from the start, every entry of every
    window is the text of a message of that sequence: not empty, without
    whitespace at its ends, no notice event and no inline-media marker. *)
Theorem X7_window_entries_passed_the_filters cfg rng ms g h x
  (Hwindow : chat_history (run cfg rng ms init_world) !! g = Some h)
  (Hentry : x ∈ h) :
  x ∈ observed_texts ms /\
  Str.truthy x = true /\ Str.strip x = x /\
  Re.search_notice x = false /\ Str.startswith x "[CQ:" = false.
Proof.
  pose proof (entries_in_run cfg rng ms [] init_world (entries_in_init []))
    as Hin.
  assert (Hx : x ∈ observed_texts ms) by (apply (Hin g h x Hwindow Hentry)).
  split; [exact Hx|].
  apply observed_texts_elem in Hx as (m & g' & _ & Hc).
  destruct (classify_observed _ _ _ Hc) as (_ & Ht & Hn & Hq).
  repeat split; try done.
  destruct m as [m|]; simpl in Hc; [|discriminate].
  repeat (match type of Hc with context [if ?b then _ else _] =>
            destruct b end; try discriminate).
  injection Hc as _ <-. apply first_text_stripped.
Qed.

Lemma X7_window_entries_witness :
  let ms := [said "123" "  A "; said "123" "[CQ:image,file=x]";
             said "123" "B"] in
  chat_history (run certain_cfg (steady (1 # 2)) ms init_world) !! "123"
  = Some ["A"; "B"] /\
  "A" ∈ ["A"; "B"] /\
  Str.strip "A" = "A".
Proof.
  intros ms.
  assert (H1 : chat_history (run certain_cfg (steady (1 # 2)) ms init_world)
               !! "123" = Some ["A"; "B"]) by reflexivity.
  assert (H2 : "A" ∈ ["A"; "B"]) by apply list_elem_of_here.
  split; [exact H1|]. split; [exact H2|].
  apply (X7_window_entries_passed_the_filters certain_cfg (steady (1 # 2))
           ms "123" _ "A" H1 H2).
Defined.

(** ** Exceptions, draws and the guard *)

Lemma path_failed_inv rng sp rp g t w e k :
  path_of rng sp rp g t w = Failed e k ->
  repeat_trigger (history_of w g) t = true /\
  ((e = TypeError /\ k = 1 /\ comparable sp = false) \/
   (e = TypeError /\ k = 2 /\ comparable rp = false /\
    py_le (rng (draws_used w)) sp = Some false) \/
   (e = ValueError /\ k = 2 /\
    py_le (rng (draws_used w)) sp = Some false /\
    py_le (rng (S (draws_used w))) rp = Some true /\
    is_last_repeated t (last_repeated_message w) = false /\
    py_int g = None)).
Proof.
  unfold path_of.
  destruct (repeat_trigger _ _); simpl; [|discriminate].
  destruct (py_le _ sp) as [[|]|] eqn:E1; try discriminate.
  - destruct (py_le _ rp) as [[|]|] eqn:E2; try discriminate.
    + destruct (is_last_repeated _ _) eqn:E3; try discriminate.
      destruct (py_int g) eqn:E4; try discriminate.
      intros [= <- <-]. split; [done|]. right. right. done.
    + intros [= <- <-]. split; [done|]. right. left.
      repeat split; try done. by destruct rp.
  - intros [= <- <-]. split; [done|]. left.
    repeat split. by destruct sp.
Qed.

Lemma path_value_error rng sp rp g t w :
  repeat_trigger (history_of w g) t = true ->
  py_le (rng (draws_used w)) sp = Some false ->
  py_le (rng (S (draws_used w))) rp = Some true ->
  is_last_repeated t (last_repeated_message w) = false ->
  py_int g = None ->
  path_of rng sp rp g t w = Failed ValueError 2.
Proof. intros H1 H2 H3 H4 H5. unfold path_of. by rewrite H1, H2, H3, H4, H5. Qed.

(** X8: with configuration values that compare with a float, a call
    either returns the fixed tuple or raises [ValueError], and it raises
    exactly when the message is observed, the trigger holds, the skip gate
    fails, the repeat gate passes, the guard holds another text and
    [int(group_id)] fails. *)
Theorem X8_execute_raises_iff cfg rng m w
  (Hsp : comparable (effective_skip_probability cfg) = true)
  (Hrp : comparable (effective_repeat_probability cfg) = true) :
  (fst (execute cfg rng m w) = Ok pass_on \/
   fst (execute cfg rng m w) = Raised ValueError) /\
  (fst (execute cfg rng m w) = Raised ValueError <->
   exists g t,
     classify m = Observed g t /\
     repeat_trigger (history_of w g) t = true /\
     py_le (rng (draws_used w)) (effective_skip_probability cfg)
     = Some false /\
     py_le (rng (S (draws_used w))) (effective_repeat_probability cfg)
     = Some true /\
     last_repeated_message w <> Some t /\
     py_int g = None).
Proof.
  split.
  - destruct (execute_result cfg rng m w)
      as [H|(g & t & e & k & Hc & Hp & H)]; [by left|].
    right. rewrite H.
    apply path_failed_inv in Hp as (_ & [(_ & _ & Hf)|[(_ & _ & Hf & _)|(-> & _)]]);
      [congruence|congruence|done].
  - split.
    + intros H. destruct (execute_result cfg rng m w)
        as [H'|(g & t & e & k & Hc & Hp & H')]; [congruence|].
      exists g, t. split; [done|].
      apply path_failed_inv in Hp
        as (Htr & [(_ & _ & Hf)|[(_ & _ & Hf & _)|(_ & _ & H1 & H2 & H3 & H4)]]);
        [congruence|congruence|].
      repeat split; try done.
      intros E. apply is_last_repeated_true in E. congruence.
    + intros (g & t & Hc & H1 & H2 & H3 & H4 & H5).
      rewrite (execute_observed _ _ _ _ _ _ Hc). simpl.
      rewrite (path_value_error _ _ _ _ _ _ H1 H2 H3); [done| |done].
      destruct (is_last_repeated t (last_repeated_message w)) eqn:E; [|done].
      by apply is_last_repeated_true in E.
Qed.

Lemma X8_raises_witness :
  comparable (effective_skip_probability certain_cfg) = true /\
  comparable (effective_repeat_probability certain_cfg) = true /\
  (fst (execute certain_cfg (steady (1 # 2)) (said "abc" "A") init_world)
   = Ok pass_on \/
   fst (execute certain_cfg (steady (1 # 2)) (said "abc" "A") init_world)
   = Raised ValueError).
Proof.
  assert (H1 : comparable (effective_skip_probability certain_cfg) = true)
    by reflexivity.
  assert (H2 : comparable (effective_repeat_probability certain_cfg) = true)
    by reflexivity.
  split; [exact H1|]. split; [exact H2|].
  apply (X8_execute_raises_iff certain_cfg (steady (1 # 2))
           (said "abc" "A") init_world H1 H2).
Defined.

Lemma trigger_window_present w g t :
  repeat_trigger (history_of w g) t = true ->
  chat_history w !! g = Some (history_of w g).
Proof.
  intros [pre E]%repeat_trigger_iff. unfold history_of in *.
  destruct (chat_history w !! g); [done|]. simpl in E. by destruct pre.
Qed.

(** X9: a call that raises has changed no window, not the guard and not
    the requests sent; it has only consumed one or two draws. *)
Theorem X9_raising_call_changes_only_the_draws cfg rng m w e
  (Hraised : fst (execute cfg rng m w) = Raised e) :
  chat_history (step cfg rng w m) = chat_history w /\
  last_repeated_message (step cfg rng w m) = last_repeated_message w /\
  outbox (step cfg rng w m) = outbox w /\
  draws_used w < draws_used (step cfg rng w m) <= draws_used w + 2.
Proof.
  destruct (execute_result cfg rng m w)
    as [H|(g & t & e' & k & Hc & Hp & H)]; [congruence|].
  rewrite (step_observed _ _ _ _ _ _ Hc), Hp. simpl.
  apply path_failed_inv in Hp as (Htr & Hk).
  split; [|split; [done|split; [done|]]].
  - apply insert_id. by apply trigger_window_present in Htr.
  - destruct Hk as [(_ & -> & _)|[(_ & -> & _)|(_ & -> & _)]]; lia.
Qed.

Lemma X9_raising_call_witness :
  let w := run certain_cfg (steady (1 # 2)) (replicate 2 (said "abc" "A"))
             init_world in
  let w' := step certain_cfg (steady (1 # 2)) w (said "abc" "A") in
  fst (execute certain_cfg (steady (1 # 2)) (said "abc" "A") w)
  = Raised ValueError /\
  chat_history w' = chat_history w /\
  last_repeated_message w' = last_repeated_message w /\
  outbox w' = outbox w /\
  draws_used w < draws_used w' <= draws_used w + 2.
Proof.
  intros w w'.
  assert (H : fst (execute certain_cfg (steady (1 # 2)) (said "abc" "A") w)
              = Raised ValueError) by reflexivity.
  split; [exact H|].
  apply (X9_raising_call_changes_only_the_draws certain_cfg (steady (1 # 2))
           (said "abc" "A") w ValueError H).
Defined.

(** X10: a call draws random numbers only for an observed message whose
    trigger holds, and then one or two of them. *)
Theorem X10_draws_only_when_triggered cfg rng m w :
  draws_used w <= draws_used (step cfg rng w m) <= draws_used w + 2 /\
  (draws_used (step cfg rng w m) <> draws_used w <->
   exists g t, classify m = Observed g t /\
               repeat_trigger (history_of w g) t = true).
Proof.
  destruct (classify m) as [|t|g t] eqn:Hc.
  - rewrite (step_dropped _ _ _ _ Hc). split; [lia|].
    split; [done|]. intros (g & t & ? & _). discriminate.
  - unfold step. rewrite (execute_self _ _ _ _ _ Hc). simpl. split; [lia|].
    split; [done|]. intros (g & t' & ? & _). discriminate.
  - rewrite (step_observed _ _ _ _ _ _ Hc). simpl.
    destruct (path_of _ _ _ _ _ _) as [| | | |n|e k] eqn:Hp; simpl.
    + split; [lia|]. split; [done|]. intros (g' & t' & [= <- <-] & Htr).
      unfold path_of in Hp. rewrite Htr in Hp. simpl in Hp.
      repeat (match type of Hp with context [match ?b with _ => _ end] =>
                destruct b end; try discriminate).
    + split; [lia|]. split; [|lia]. intros _. exists g, t. split; [done|].
      unfold path_of in Hp. destruct (repeat_trigger _ _); [done|discriminate].
    + split; [lia|]. split; [|lia]. intros _. exists g, t. split; [done|].
      unfold path_of in Hp. destruct (repeat_trigger _ _); [done|discriminate].
    + split; [lia|]. split; [|lia]. intros _. exists g, t. split; [done|].
      unfold path_of in Hp. destruct (repeat_trigger _ _); [done|discriminate].
    + split; [lia|]. split; [|lia]. intros _. exists g, t. split; [done|].
      by apply path_echoed_inv in Hp as (? & _).
    + apply path_failed_inv in Hp as (Htr & Hk).
      assert (k = 1 \/ k = 2) as Hk'
        by (destruct Hk as [(_ & -> & _)|[(_ & -> & _)|(_ & -> & _)]]; auto).
      split; [lia|]. split; [|lia]. intros _. by exists g, t.
Qed.

(** X11: a call changes the guard in two ways only: a message of the bot
    whose text is the guard unsets it, and an echo sets it to the text
    echoed. *)
Theorem X11_guard_changes cfg rng w m
  (Hchanged : last_repeated_message (step cfg rng w m)
              <> last_repeated_message w) :
  (exists t, classify m = SelfAuthored t /\
             last_repeated_message w = Some t /\
             last_repeated_message (step cfg rng w m) = None) \/
  (exists g t n, classify m = Observed g t /\
                 outbox (step cfg rng w m)
                 = outbox w ++ [(n, Re.sub_mentions t)] /\
                 last_repeated_message (step cfg rng w m) = Some t).
Proof. by destruct (guard_step cfg rng w m) as [?|?]. Qed.

Lemma X11_guard_witness :
  let w := run certain_cfg (steady (1 # 2)) (replicate 3 (said "123" "A"))
             init_world in
  let m := bot_said "123" "A" in
  last_repeated_message (step certain_cfg (steady (1 # 2)) w m)
  <> last_repeated_message w /\
  ((exists t, classify m = SelfAuthored t /\
              last_repeated_message w = Some t /\
              last_repeated_message (step certain_cfg (steady (1 # 2)) w m)
              = None) \/
   (exists g t n, classify m = Observed g t /\
                  outbox (step certain_cfg (steady (1 # 2)) w m)
                  = outbox w ++ [(n, Re.sub_mentions t)] /\
                  last_repeated_message
                    (step certain_cfg (steady (1 # 2)) w m) = Some t)).
Proof.
  intros w m.
  assert (H : last_repeated_message (step certain_cfg (steady (1 # 2)) w m)
              <> last_repeated_message w) by (vm_compute; discriminate).
  split; [exact H|].
  apply (X11_guard_changes certain_cfg (steady (1 # 2)) w m H).
Defined.

Lemma guarded_streak cfg rng t ms w :
  last_repeated_message w = Some t ->
  Forall (fun m => exists g, classify m = Observed g t) ms ->
  outbox (run cfg rng ms w) = outbox w.
Proof.
  intros Hl Hall.
  destruct (guarded_run cfg rng t ms w Hl) as [[Ho _]|H]; [|done|].
  - eapply Forall_impl; [exact Hall|]. intros m [g Hc]. congruence.
  - destruct H as (pre & m & post & g & t' & n & -> & _ & Hc & Hne & _).
    apply Forall_app in Hall as [_ Hall].
    apply Forall_cons in Hall as [[g' Hc'] _]. congruence.
Qed.

(** X12: a streak of messages with one text, in whatever groups and
    however long, is echoed at most once, for every configuration and
    all draws. *)
Theorem X12_streak_echoed_at_most_once cfg rng t ms
  (Hstreak : Forall (fun m => exists g, classify m = Observed g t) ms) :
  forall w,
    outbox (run cfg rng ms w) = outbox w \/
    exists n, outbox (run cfg rng ms w) = outbox w ++ [(n, Re.sub_mentions t)].
Proof.
  induction Hstreak as [|m ms [g Hc] Hall IH]; intros w; [by left|].
  rewrite run_cons.
  destruct (guard_step cfg rng w m)
    as [E|[(t' & Hc' & _)|(g' & t' & n & Hc' & Ho & Hl)]].
  - assert (Ho : outbox (step cfg rng w m) = outbox w).
    { rewrite (step_observed _ _ _ _ _ _ Hc) in *.
      destruct (path_of _ _ _ _ _ _) as [| | | |n|e k] eqn:Hp; try done.
      simpl in E. apply path_echoed_inv in Hp as (_ & _ & _ & Hg & _).
      rewrite <- E in Hg. simpl in Hg. by rewrite String.eqb_refl in Hg. }
    destruct (IH (step cfg rng w m)) as [H|[n H]]; rewrite H, Ho; eauto.
  - congruence.
  - assert (t' = t) as -> by congruence.
    right. exists n. by rewrite (guarded_streak cfg rng t ms _ Hl Hall).
Qed.

Lemma X12_streak_witness :
  let ms := replicate 6 (said "123" "A") ++ replicate 4 (said "456" "A") in
  Forall (fun m => exists g, classify m = Observed g "A") ms /\
  (outbox (run certain_cfg (steady (1 # 2)) ms init_world) = outbox init_world \/
   exists n, outbox (run certain_cfg (steady (1 # 2)) ms init_world)
             = outbox init_world ++ [(n, Re.sub_mentions "A")]).
Proof.
  intros ms.
  assert (H : Forall (fun m => exists g, classify m = Observed g "A") ms).
  { repeat constructor; try (by exists "123"); by exists "456". }
  split; [exact H|].
  apply (X12_streak_echoed_at_most_once certain_cfg (steady (1 # 2)) "A" ms H).
Defined.

(** ** The window as the last three texts of its group *)

Lemma append_last_entries (l : list string) t :
  Deque.append (last_entries Deque.maxlen l) t
  = last_entries Deque.maxlen (l ++ [t]).
Proof.
  unfold Deque.append, last_entries, Deque.maxlen.
  rewrite length_drop, length_app. simpl.
  destruct (Nat.ltb_spec (length l - (length l - 3)) 3) as [H|H].
  - replace (length l - 3) with 0 by lia.
    replace (length l + 1 - 3) with 0 by lia. reflexivity.
  - rewrite drop_drop, drop_app_le by lia. f_equal. f_equal. lia.
Qed.

Lemma group_texts_snoc g ms m :
  group_texts g (ms ++ [m]) =
  group_texts g ms ++
  match classify m with
  | Observed g' t => if String.eqb g' g then [t] else []
  | _ => []
  end.
Proof.
  unfold group_texts. rewrite omap_app. f_equal. simpl.
  destruct (classify m) as [| |g' t]; try done. by destruct (String.eqb g' g).
Qed.

Lemma history_of_other p g t w g' :
  g <> g' -> history_of (world_after p g t w) g' = history_of w g'.
Proof. intros Hne. unfold history_of. by rewrite history_after_other. Qed.

(** X13: when the configuration values compare with a float and the
    group ids are numbers, so that no call raises, the window of a group
    after any sequence of calls from the start is the last three texts
    observed in that group, in order; messages of other groups, stopped
    messages and messages of the bot leave it alone. *)
Theorem X13_window_is_last_three_texts cfg rng ms g
  (Hsp : comparable (effective_skip_probability cfg) = true)
  (Hrp : comparable (effective_repeat_probability cfg) = true)
  (Hnum : numeric_groups ms) :
  history_of (run cfg rng ms init_world) g
  = last_entries 3 (group_texts g ms).
Proof.
  induction ms as [|m ms IH] using rev_ind; [reflexivity|].
  apply Forall_app in Hnum as [Hnum Hm]. apply Forall_cons in Hm as [Hm _].
  specialize (IH Hnum). rewrite run_snoc, group_texts_snoc.
  destruct (classify m) as [|t|g' t] eqn:Hc.
  - rewrite (step_dropped _ _ _ _ Hc), app_nil_r. exact IH.
  - unfold history_of in *.
    destruct (step_self_history cfg rng _ _ (run cfg rng ms init_world) Hc)
      as [-> _]. by rewrite app_nil_r.
  - rewrite (step_observed _ _ _ _ _ _ Hc).
    destruct (String.eqb_spec g' g) as [->|Hne].
    + rewrite history_of_after, IH.
      destruct (path_of _ _ _ _ _ _) as [| | | |n|e k] eqn:Hp;
        try apply (append_last_entries (group_texts g ms) t).
      destruct (Hm g t eq_refl) as [n Hn].
      apply path_failed_inv
        in Hp as (_ & [(_ & _ & Hf)|[(_ & _ & Hf & _)|(_ & _ & _ & _ & _ & Hf)]]);
        congruence.
    + rewrite history_of_other by done. by rewrite app_nil_r.
Qed.

Lemma X13_window_witness :
  let ms := [said "1" "a"; said "2" "x"; said "1" "b"; bot_said "1" "z";
             said "1" "c"; None; said "1" "d"] in
  comparable (effective_skip_probability even_cfg) = true /\
  comparable (effective_repeat_probability even_cfg) = true /\
  numeric_groups ms /\
  history_of (run even_cfg (steady (1 # 2)) ms init_world) "1"
  = last_entries 3 (group_texts "1" ms) /\
  last_entries 3 (group_texts "1" ms) = ["b"; "c"; "d"].
Proof.
  intros ms.
  assert (H1 : comparable (effective_skip_probability even_cfg) = true)
    by reflexivity.
  assert (H2 : comparable (effective_repeat_probability even_cfg) = true)
    by reflexivity.
  assert (H3 : numeric_groups ms).
  { unfold numeric_groups, ms.
    repeat first [apply List.Forall_nil | apply List.Forall_cons];
      intros g t Hc; vm_compute in Hc; try discriminate;
      injection Hc as <- <-; eexists; reflexivity. }
  split; [exact H1|]. split; [exact H2|]. split; [exact H3|].
  split; [|reflexivity].
  apply (X13_window_is_last_three_texts even_cfg (steady (1 # 2)) ms "1"
           H1 H2 H3).
Defined.

(** ** The notice pattern and the stopped messages *)

Lemma prefix_iff p s :
  String.prefix p s = true <-> exists r, s = (p ++ r)%string.
Proof.
  revert s. induction p as [|a p IH]; intros s.
  - destruct s; simpl; split; eauto.
  - destruct s as [|b s]; simpl.
    + split; [discriminate|]. intros [r Hr]. rewrite app_cons in Hr.
      discriminate.
    + destruct (Ascii.ascii_dec a b) as [->|Hne].
      * rewrite IH. split; intros [r Hr]; exists r.
        -- rewrite app_cons. by rewrite Hr.
        -- rewrite app_cons in Hr. by injection Hr.
      * split; [discriminate|]. intros [r Hr]. rewrite app_cons in Hr.
        congruence.
Qed.

Lemma notice_here_iff s :
  Re.notice_here s = true <->
  exists ws1 ws2 post,
    Str.all_chars Str.is_space ws1 = true /\
    Str.all_chars Str.is_space ws2 = true /\
    s = (Re.quoted "post_type" ++ ws1 ++ ":" ++ ws2
         ++ Re.quoted "notice" ++ post)%string.
Proof.
  unfold Re.notice_here. split.
  - destruct (Str.strip_prefix _ s) as [r|] eqn:E1; [|discriminate].
    apply strip_prefix_iff in E1 as ->.
    destruct (Str.span Str.is_space r) as [ws1 r1] eqn:E2.
    apply span_split in E2 as (-> & H1 & _). simpl snd.
    destruct (Str.strip_prefix ":" r1) as [r'|] eqn:E3; [|discriminate].
    apply strip_prefix_iff in E3 as ->.
    destruct (Str.span Str.is_space r') as [ws2 r2] eqn:E4.
    apply span_split in E4 as (-> & H2 & _). simpl snd.
    intros [post ->]%prefix_iff. by exists ws1, ws2, post.
  - intros (ws1 & ws2 & post & H1 & H2 & ->).
    rewrite (proj2 (strip_prefix_iff (Re.quoted "post_type") _ _) eq_refl).
    rewrite (span_intro Str.is_space ws1 _ H1) by reflexivity. simpl snd.
    rewrite (proj2 (strip_prefix_iff ":" _ _) eq_refl).
    rewrite (span_intro Str.is_space ws2 _ H2) by reflexivity. simpl snd.
    apply prefix_iff. by exists post.
Qed.

(** X14: [re.search] with the notice pattern succeeds exactly on the
    texts that hold, anywhere, ["post_type"], whitespace or none, a colon,
    whitespace or none, and ["notice"]. *)
Theorem X14_search_notice_iff s :
  Re.search_notice s = true <->
  exists pre ws1 ws2 post,
    Str.all_chars Str.is_space ws1 = true /\
    Str.all_chars Str.is_space ws2 = true /\
    s = (pre ++ Re.quoted "post_type" ++ ws1 ++ ":" ++ ws2
         ++ Re.quoted "notice" ++ post)%string.
Proof.
  induction s as [|c s IH].
  - split.
    + intros H. vm_compute in H. discriminate.
    + intros (pre & ws1 & ws2 & post & _ & _ & E).
      destruct pre; [unfold Re.quoted in E|]; rewrite app_cons in E;
        discriminate.
  - cbn [Re.search_notice]. rewrite orb_true_iff, IH, notice_here_iff. split.
    + intros [(ws1 & ws2 & post & H1 & H2 & E)|
              (pre & ws1 & ws2 & post & H1 & H2 & E)].
      * by exists EmptyString, ws1, ws2, post.
      * exists (String c pre), ws1, ws2, post. rewrite app_cons, <- E. auto.
    + intros (pre & ws1 & ws2 & post & H1 & H2 & E). destruct pre as [|a pre].
      * left. by exists ws1, ws2, post.
      * right. rewrite app_cons in E. injection E as -> E.
        by exists pre, ws1, ws2, post.
Qed.

(** X15: a message without group id or without text, a notice event and a
    text that begins with [[CQ:] are stopped before everything else: the
    call returns the fixed tuple and the world is untouched, also when the
    message is the bot's own and its text is the guard. *)
Theorem X15_stopped_message_changes_nothing cfg rng m w
  (Hstopped : Str.truthy (group_id_of m) = false \/
              Str.truthy (text_of m) = false \/
              Re.search_notice (text_of m) = true \/
              (exists r, text_of m = ("[CQ:" ++ r)%string)) :
  execute cfg rng (Some m) w = (Ok pass_on, w).
Proof.
  apply execute_dropped. simpl.
  destruct Hstopped as [H|[H|[H|H]]].
  - by rewrite H.
  - rewrite H. by destruct (Str.truthy (group_id_of m)).
  - rewrite H. destruct (Str.truthy (group_id_of m)); [|done].
    by destruct (Str.truthy (text_of m)).
  - apply prefix_iff in H. unfold Str.startswith. rewrite H.
    destruct (Str.truthy (group_id_of m)); [|done].
    destruct (Str.truthy (text_of m)); [|done].
    by destruct (Re.search_notice (text_of m)).
Qed.

Lemma X15_stopped_witness :
  let w := run certain_cfg (steady (1 # 2))
             (replicate 3 (said "123" "[CQ:at,qq=1]")) init_world in
  let m := group_message "123" "[CQ:face,id=1]" true in
  (Str.truthy (group_id_of m) = false \/
   Str.truthy (text_of m) = false \/
   Re.search_notice (text_of m) = true \/
   (exists r, text_of m = ("[CQ:" ++ r)%string)) /\
  execute certain_cfg (steady (1 # 2)) (Some m) w = (Ok pass_on, w) /\
  w = init_world.
Proof.
  intros w m.
  assert (H : Str.truthy (group_id_of m) = false \/
              Str.truthy (text_of m) = false \/
              Re.search_notice (text_of m) = true \/
              (exists r, text_of m = ("[CQ:" ++ r)%string)).
  { right. right. right. by exists "face,id=1]". }
  split; [exact H|]. split; [|reflexivity].
  apply (X15_stopped_message_changes_nothing certain_cfg (steady (1 # 2))
           m w H).
Defined.

(** ** More on the rewriting of mentions *)

Lemma no_at_no_mention c s :
  not_at c = true -> Re.mention_here (String c s) = None.
Proof.
  intros H. unfold Re.mention_here. cbn [Str.strip_prefix].
  destruct (Ascii.eqb_spec "@" c) as [<-|_]; [|reflexivity].
  vm_compute in H. discriminate.
Qed.

Lemma sub_mentions_fuel_length n : forall s,
  String.length (Re.sub_mentions_fuel n s) <= String.length s.
Proof.
  induction n as [|n IH]; intros s; [simpl; lia|]. simpl.
  destruct (Re.mention_here s) as [[name rest]|] eqn:E.
  - apply mention_here_iff in E as (ds & _ & ->). unfold Re.markup.
    pose proof (IH rest). cbn [String.length].
    rewrite !length_app_str. simpl. lia.
  - destruct s as [|c s]; simpl; [lia|]. pose proof (IH s). lia.
Qed.

(** X16: the rewriting leaves a text without [@] as it is, and never
    makes a text longer. *)
Theorem X16_sub_mentions_plain_text_and_length s :
  (Str.all_chars not_at s = true -> Re.sub_mentions s = s) /\
  String.length (Re.sub_mentions s) <= String.length s.
Proof.
  split; [|apply sub_mentions_fuel_length].
  induction s as [|c s IH]; [reflexivity|]. simpl.
  intros [Hc Hs]%andb_true_iff.
  rewrite sub_mentions_plain by (by apply no_at_no_mention).
  by rewrite IH.
Qed.

Lemma X16_plain_text_witness :
  Str.all_chars not_at "plain text: 1 < 2" = true /\
  Re.sub_mentions "plain text: 1 < 2" = "plain text: 1 < 2".
Proof.
  assert (H : Str.all_chars not_at "plain text: 1 < 2" = true) by reflexivity.
  split; [exact H|].
  apply (X16_sub_mentions_plain_text_and_length "plain text: 1 < 2"), H.
Defined.

(** ** [str] and [int] on a group id *)

(** [int] does not skip the separator 31, which [str.strip] removes, and
    skips the no-break space 160. *)
Example int_whitespace :
  py_int (String (ascii_of_nat 31) "9") = None /\
  Str.strip (String (ascii_of_nat 31) "9") = "9" /\
  py_int (String (ascii_of_nat 160) "9") = Some 9%Z.
Proof. repeat split. Qed.

Lemma all_chars_app p (a b : string) :
  Str.all_chars p (a ++ b) = Str.all_chars p a && Str.all_chars p b.
Proof.
  induction a as [|c a IH]; [reflexivity|].
  rewrite app_cons. simpl. by rewrite IH, andb_assoc.
Qed.

Lemma digits_value_app (a b : string) : forall acc,
  digits_value acc (a ++ b) = digits_value (digits_value acc a) b.
Proof.
  induction a as [|c a IH]; intros acc; [reflexivity|].
  rewrite app_cons. simpl. apply IH.
Qed.

Lemma int_digits_all s : forall b acc,
  Str.all_chars Str.is_digit s = true ->
  int_digits b acc s =
  if b || Str.truthy s then Some (digits_value acc s) else None.
Proof.
  induction s as [|c s IH]; intros b acc Hs; simpl.
  - rewrite orb_false_r. by destruct b.
  - simpl in Hs. apply andb_true_iff in Hs as [Hc Hs].
    rewrite Hc, (IH true _ Hs), orb_true_r. reflexivity.
Qed.

Lemma strip_no_space s :
  Str.all_chars not_space s = true -> Str.strip s = s.
Proof.
  intros Hs. unfold Str.strip.
  assert (Hl : Str.lstrip s = s).
  { destruct s as [|c s]; [reflexivity|]. simpl in *.
    apply andb_true_iff in Hs as [Hc _]. unfold not_space in Hc.
    by destruct (Str.is_space c). }
  rewrite Hl. induction s as [|c s IH]; [reflexivity|]. simpl in *.
  apply andb_true_iff in Hs as [Hc Hs]. unfold not_space in Hc.
  destruct (Str.is_space c); [discriminate|]. simpl.
  rewrite IH; [done|done|].
  destruct s as [|d s]; [reflexivity|]. simpl in *.
  apply andb_true_iff in Hs as [Hd _]. unfold not_space in Hd.
  by destruct (Str.is_space d).
Qed.

Lemma digit_not_space c : Str.is_digit c = true -> not_space c = true.
Proof.
  unfold Str.is_digit, not_space, Str.is_space.
  intros [H1 H2]%andb_true_iff. apply Nat.leb_le in H1, H2.
  apply negb_true_iff. repeat (apply orb_false_iff; split).
  - apply andb_false_iff. right. apply Nat.leb_gt. lia.
  - apply andb_false_iff. right. apply Nat.leb_gt. lia.
  - apply Nat.eqb_neq. lia.
  - apply Nat.eqb_neq. lia.
Qed.

Lemma digits_not_space s :
  Str.all_chars Str.is_digit s = true -> Str.all_chars not_space s = true.
Proof.
  induction s as [|c s IH]; [done|]. simpl.
  intros [Hc Hs]%andb_true_iff. by rewrite (digit_not_space c Hc), IH.
Qed.

Lemma pretty_char_digit k :
  (k < 10)%N ->
  Str.is_digit (pretty_N_char k) = true /\
  Z.of_nat (nat_of_ascii (pretty_N_char k) - 48) = Z.of_N k.
Proof.
  intros Hk.
  assert (k = 0 \/ k = 1 \/ k = 2 \/ k = 3 \/ k = 4 \/ k = 5 \/ k = 6
          \/ k = 7 \/ k = 8 \/ k = 9)%N as H by lia.
  repeat (destruct H as [->|H]; [by split|]). subst. by split.
Qed.

Lemma pretty_go_app x : forall s,
  pretty_N_go x s = (pretty_N_go x EmptyString ++ s)%string.
Proof.
  induction (N.lt_wf_0 x) as [x _ IH]; intros s.
  destruct (decide (x = 0)%N) as [->|Hx]; [by rewrite !pretty_N_go_0|].
  rewrite !(pretty_N_go_step x) by lia.
  assert (Hlt : (x `div` 10 < x)%N) by (apply N.div_lt; lia).
  rewrite (IH _ Hlt (String _ s)), (IH _ Hlt (String _ EmptyString)).
  by rewrite app_assoc_str.
Qed.

Lemma pretty_go_digits x :
  Str.all_chars Str.is_digit (pretty_N_go x EmptyString) = true /\
  digits_value 0 (pretty_N_go x EmptyString) = Z.of_N x /\
  ((0 < x)%N -> Str.truthy (pretty_N_go x EmptyString) = true).
Proof.
  induction (N.lt_wf_0 x) as [x _ IH].
  destruct (decide (x = 0)%N) as [->|Hx].
  { rewrite pretty_N_go_0. repeat split. lia. }
  rewrite (pretty_N_go_step x) by lia. rewrite pretty_go_app.
  destruct (IH (x `div` 10)%N) as (Hd & Hv & _); [apply N.div_lt; lia|].
  destruct (pretty_char_digit (x `mod` 10)%N) as [Hc Hcv];
    [apply N.mod_lt; lia|].
  split; [|split].
  - rewrite all_chars_app, Hd. simpl. by rewrite Hc.
  - rewrite digits_value_app, Hv. simpl. rewrite Hcv.
    rewrite (N.div_mod x 10) at 3 by lia. lia.
  - intros _. by destruct (pretty_N_go (x `div` 10) EmptyString).
Qed.

Lemma int_strip_fixed s :
  Str.all_chars (fun c => negb (int_space c)) s = true ->
  int_rstrip (int_lstrip s) = s.
Proof.
  intros Hs.
  assert (Hl : int_lstrip s = s).
  { destruct s as [|c s]; [reflexivity|]. simpl in *.
    apply andb_true_iff in Hs as [Hc _]. by destruct (int_space c). }
  rewrite Hl. induction s as [|c s IH]; [reflexivity|]. simpl in *.
  apply andb_true_iff in Hs as [Hc Hs].
  destruct (int_space c); [discriminate|]. simpl.
  rewrite IH; [done|done|].
  destruct s as [|d s]; [reflexivity|]. simpl in *.
  apply andb_true_iff in Hs as [Hd _]. by destruct (int_space d).
Qed.

Lemma digit_not_int_space c :
  Str.is_digit c = true -> negb (int_space c) = true.
Proof.
  unfold Str.is_digit, int_space.
  intros [H1 H2]%andb_true_iff. apply Nat.leb_le in H1, H2.
  apply negb_true_iff. repeat (apply orb_false_iff; split).
  - apply andb_false_iff. right. apply Nat.leb_gt. lia.
  - apply Nat.eqb_neq. lia.
  - apply Nat.eqb_neq. lia.
  - apply Nat.eqb_neq. lia.
Qed.

Lemma digits_not_int_space s :
  Str.all_chars Str.is_digit s = true ->
  Str.all_chars (fun c => negb (int_space c)) s = true.
Proof.
  induction s as [|c s IH]; [done|]. simpl.
  intros [Hc Hs]%andb_true_iff. by rewrite (digit_not_int_space c Hc), IH.
Qed.

Lemma py_int_digits s :
  Str.all_chars Str.is_digit s = true -> Str.truthy s = true ->
  py_int s = Some (digits_value 0 s).
Proof.
  intros Hs Ht. unfold py_int.
  rewrite (int_strip_fixed s (digits_not_int_space s Hs)).
  pose proof (int_digits_all s false 0%Z Hs) as F. rewrite Ht in F.
  simpl in F. rewrite <- F. clear F.
  destruct s as [|c r]; [discriminate|]. simpl in Hs.
  apply andb_true_iff in Hs as [Hc _].
  destruct c as [[] [] [] [] [] [] [] []]; try (vm_compute in Hc; discriminate);
    reflexivity.
Qed.

Lemma py_int_pretty_pos p : py_int (pretty (N.pos p)) = Some (Z.pos p).
Proof.
  unfold pretty, pretty_N. destruct (decide (N.pos p = 0%N)); [done|].
  destruct (pretty_go_digits (N.pos p)) as (Hd & Hv & Ht).
  rewrite (py_int_digits _ Hd (Ht ltac:(lia))), Hv. reflexivity.
Qed.

(** X17: a group id given as an [int] survives the way through the
    handler: [_first_text] turns it into its decimal text, unchanged by
    the stripping, and [int] reads the same number back.  The bound keeps
    the number under the 4300 digits to which newer versions of Python
    limit both conversions. *)
Theorem X17_int_group_id_round_trip (n : Z)
  (Hdigits : (Z.abs n < 10 ^ 4300)%Z) :
  _first_text [PInt n] = py_str (PInt n) /\
  py_int (py_str (PInt n)) = Some n.
Proof.
  clear Hdigits.
  assert (Hs : Str.all_chars not_space (pretty n) = true /\
               Str.truthy (pretty n) = true /\
               py_int (pretty n) = Some n).
  { destruct n as [|p|p].
    - repeat split.
    - change (pretty (Z.pos p)) with (pretty (N.pos p)).
      split; [|split; [|apply py_int_pretty_pos]].
      + unfold pretty, pretty_N. destruct (decide _); [done|].
        apply digits_not_space, pretty_go_digits.
      + unfold pretty, pretty_N. destruct (decide _); [done|].
        apply pretty_go_digits. lia.
    - change (pretty (Z.neg p)) with (String "-" (pretty (N.pos p))).
      assert (Hd : Str.all_chars Str.is_digit (pretty (N.pos p)) = true /\
                   Str.truthy (pretty (N.pos p)) = true /\
                   digits_value 0 (pretty (N.pos p)) = Z.pos p).
      { unfold pretty, pretty_N. destruct (decide _); [done|].
        destruct (pretty_go_digits (N.pos p)) as (H1 & H2 & H3).
        repeat split; try done. apply H3. lia. }
      destruct Hd as (H1 & H2 & H3).
      assert (Hn : Str.all_chars not_space (String "-" (pretty (N.pos p)))
                   = true).
      { simpl. by rewrite (digits_not_space _ H1). }
      split; [exact Hn|]. split; [reflexivity|].
      unfold py_int. rewrite int_strip_fixed.
      * rewrite (int_digits_all _ false 0%Z H1), H2, H3. reflexivity.
      * simpl. by rewrite (digits_not_int_space _ H1). }
  destruct Hs as (H1 & H2 & H3). split; [|exact H3].
  simpl. rewrite (strip_no_space _ H1), H2. reflexivity.
Qed.

(** ** Echoes *)

(** X18: three equal messages in a group that has no window yet, the
    guard unset, [skip_probability] 0.0 and [repeat_probability] 1.0:
    when the draws lie strictly between 0 and 1 and the group id is a
    number, the three calls send one request, the rewritten text to that
    group, and leave the text in the guard. *)
Theorem X18_three_equal_messages_echo_once cfg rng w g t n m1 m2 m3
  (Hskip : effective_skip_probability cfg = CNum 0)
  (Hrepeat : effective_repeat_probability cfg = CNum 1)
  (Hdraws : forall i, (0 < rng i)%Q /\ (rng i < 1)%Q)
  (Hfresh : chat_history w !! g = None)
  (Hguard : last_repeated_message w = None)
  (H1 : classify m1 = Observed g t)
  (H2 : classify m2 = Observed g t)
  (H3 : classify m3 = Observed g t)
  (Hint : py_int g = Some n) :
  outbox (run cfg rng [m1; m2; m3] w) = outbox w ++ [(n, Re.sub_mentions t)] /\
  last_repeated_message (run cfg rng [m1; m2; m3] w) = Some t.
Proof. by apply (three_in_a_row_echo cfg rng w g t n m1 m2 m3). Qed.

Lemma X18_echo_once_witness :
  let ms := replicate 3 (said "123" "A") in
  effective_skip_probability certain_cfg = CNum 0 /\
  effective_repeat_probability certain_cfg = CNum 1 /\
  (forall i, (0 < steady (1 # 2) i)%Q /\ (steady (1 # 2) i < 1)%Q) /\
  outbox (run certain_cfg (steady (1 # 2)) ms init_world)
  = outbox init_world ++ [(123%Z, Re.sub_mentions "A")] /\
  last_repeated_message (run certain_cfg (steady (1 # 2)) ms init_world)
  = Some "A".
Proof.
  intros ms.
  assert (H1 : effective_skip_probability certain_cfg = CNum 0) by reflexivity.
  assert (H2 : effective_repeat_probability certain_cfg = CNum 1)
    by reflexivity.
  assert (H3 : forall i, (0 < steady (1 # 2) i)%Q /\ (steady (1 # 2) i < 1)%Q).
  { intros i. unfold steady, Qlt. simpl. lia. }
  split; [exact H1|]. split; [exact H2|]. split; [exact H3|].
  apply (X18_three_equal_messages_echo_once certain_cfg (steady (1 # 2))
           init_world "123" "A" 123%Z (said "123" "A") (said "123" "A")
           (said "123" "A") H1 H2 H3); reflexivity.
Defined.

(** X19: a call on an observed message leaves the windows of all other
    groups as they are; a stopped message and a message of the bot change
    no window; and a call on an observed message that returns has
    appended the text once to the window of its group. *)
Theorem X19_windows_frame cfg rng m w :
  (forall g t g',
      classify m = Observed g t -> g <> g' ->
      chat_history (step cfg rng w m) !! g' = chat_history w !! g') /\
  ((forall g t, classify m <> Observed g t) ->
   chat_history (step cfg rng w m) = chat_history w) /\
  (forall g t,
      classify m = Observed g t ->
      fst (execute cfg rng m w) = Ok pass_on ->
      history_of (step cfg rng w m) g = Deque.append (history_of w g) t).
Proof.
  pose proof (execute_frame cfg rng m w) as H.
  destruct (classify m) as [|t|g t] eqn:Hc.
  - split; [discriminate|]. split; [done|discriminate].
  - split; [discriminate|]. split; [done|discriminate].
  - destruct H as [H1 H2]. split.
    + intros g0 t0 g' [= <- <-]. apply H1.
    + split.
      * intros Hn. by destruct (Hn g t).
      * intros g0 t0 [= <- <-]. exact H2.
Qed.

Lemma X19_frame_witness :
  let w := run certain_cfg (steady (1 # 2))
             [said "1" "a"; said "2" "x"] init_world in
  let m := said "1" "b" in
  classify m = Observed "1" "b" /\
  "1" <> "2" /\
  fst (execute certain_cfg (steady (1 # 2)) m w) = Ok pass_on /\
  chat_history (step certain_cfg (steady (1 # 2)) w m) !! "2"
  = chat_history w !! "2" /\
  history_of (step certain_cfg (steady (1 # 2)) w m) "1"
  = Deque.append (history_of w "1") "b".
Proof.
  intros w m.
  assert (Hc : classify m = Observed "1" "b") by reflexivity.
  assert (Hne : "1" <> "2") by discriminate.
  assert (Hok : fst (execute certain_cfg (steady (1 # 2)) m w) = Ok pass_on)
    by reflexivity.
  destruct (X19_windows_frame certain_cfg (steady (1 # 2)) m w)
    as (H1 & _ & H3).
  split; [exact Hc|]. split; [exact Hne|]. split; [exact Hok|]. split.
  - exact (H1 "1" "b" "2" Hc Hne).
  - exact (H3 "1" "b" Hc Hok).
Defined.

(** X20: a message of the bot whose text is the guard makes the next
    echo of that text possible again: the same triggered message, with the
    same draws, is echoed after it and is not echoed without it. *)
Theorem X20_self_message_reopens_echo cfg rng w own m g a n
  (Hown : classify own = SelfAuthored a)
  (Hguard : last_repeated_message w = Some a)
  (Hm : classify m = Observed g a)
  (Htrigger : repeat_trigger (history_of w g) a = true)
  (Hskip : py_le (rng (draws_used w)) (effective_skip_probability cfg)
           = Some false)
  (Hrepeat : py_le (rng (S (draws_used w))) (effective_repeat_probability cfg)
             = Some true)
  (Hint : py_int g = Some n) :
  outbox (run cfg rng [own; m] w) = outbox w ++ [(n, Re.sub_mentions a)] /\
  outbox (run cfg rng [m] w) = outbox w.
Proof.
  split.
  - rewrite run_cons. simpl run.
    assert (Hw : step cfg rng w own =
                 {| chat_history := chat_history w;
                    last_repeated_message := None;
                    draws_used := draws_used w; outbox := outbox w |}).
    { unfold step. rewrite (execute_self _ _ _ _ _ Hown). simpl.
      rewrite Hguard. simpl. by rewrite String.eqb_refl. }
    rewrite Hw, (step_observed _ _ _ _ _ _ Hm).
    by rewrite (path_echoed_intro _ _ _ _ _ _ n).
  - simpl run. rewrite (step_observed _ _ _ _ _ _ Hm).
    unfold path_of. rewrite Htrigger, Hskip, Hrepeat, Hguard. simpl.
    by rewrite String.eqb_refl.
Qed.

Lemma X20_reopens_witness :
  let cfg := certain_cfg in
  let rng := steady (1 # 2) in
  let w := run cfg rng (replicate 3 (said "123" "A")) init_world in
  let own := bot_said "123" "A" in
  let m := said "123" "A" in
  classify own = SelfAuthored "A" /\
  last_repeated_message w = Some "A" /\
  classify m = Observed "123" "A" /\
  repeat_trigger (history_of w "123") "A" = true /\
  py_le (rng (draws_used w)) (effective_skip_probability cfg) = Some false /\
  py_le (rng (S (draws_used w))) (effective_repeat_probability cfg)
  = Some true /\
  py_int "123" = Some 123%Z /\
  outbox (run cfg rng [own; m] w) = outbox w ++ [(123%Z, Re.sub_mentions "A")] /\
  outbox (run cfg rng [m] w) = outbox w.
Proof.
  intros cfg rng w own m.
  assert (H1 : classify own = SelfAuthored "A") by reflexivity.
  assert (H2 : last_repeated_message w = Some "A") by reflexivity.
  assert (H3 : classify m = Observed "123" "A") by reflexivity.
  assert (H4 : repeat_trigger (history_of w "123") "A" = true) by reflexivity.
  assert (H5 : py_le (rng (draws_used w)) (effective_skip_probability cfg)
               = Some false) by reflexivity.
  assert (H6 : py_le (rng (S (draws_used w)))
                 (effective_repeat_probability cfg) = Some true)
    by reflexivity.
  assert (H7 : py_int "123" = Some 123%Z) by reflexivity.
  repeat (split; [assumption|]).
  apply (X20_self_message_reopens_echo cfg rng w own m "123" "A" 123%Z
           H1 H2 H3 H4 H5 H6 H7).
Defined.

Lemma outbox_step cfg rng w m :
  outbox (step cfg rng w m) = outbox w \/
  exists g t n, classify m = Observed g t /\ py_int g = Some n /\
                outbox (step cfg rng w m)
                = outbox w ++ [(n, Re.sub_mentions t)].
Proof.
  destruct (classify m) as [|t|g t] eqn:Hc.
  - left. by rewrite step_dropped.
  - left. by destruct (step_self_history cfg rng _ _ w Hc).
  - rewrite (step_observed _ _ _ _ _ _ Hc).
    destruct (path_of _ _ _ _ _ _) as [| | | |n|e k] eqn:Hp; try by left.
    right. exists g, t, n. apply path_echoed_inv in Hp as (_ & _ & _ & _ & Hi).
    done.
Qed.

(** X21: what has been handed to the gateway stays, in its order; a
    sequence of calls adds at most one request per call, and each request
    added goes to the number of the group of one of the observed messages
    of the sequence and carries the rewriting of the text of that
    message. *)
Theorem X21_requests_come_from_observed_messages cfg rng ms : forall w,
  exists added,
    outbox (run cfg rng ms w) = outbox w ++ added /\
    length added <= length ms /\
    (forall n s, (n, s) ∈ added ->
       exists m g t, m ∈ ms /\ classify m = Observed g t /\
                     py_int g = Some n /\ s = Re.sub_mentions t).
Proof.
  induction ms as [|m ms IH]; intros w.
  - exists []. simpl. rewrite app_nil_r. split; [done|]. split; [lia|].
    by intros n s ?%elem_of_nil.
  - rewrite run_cons.
    destruct (IH (step cfg rng w m)) as (added & Ho & Hl & Hin).
    destruct (outbox_step cfg rng w m) as [E|(g & t & n & Hc & Hi & E)].
    + exists added. rewrite Ho, E. split; [done|]. split; [simpl; lia|].
      intros n s Hs. destruct (Hin n s Hs) as (m' & g & t & Hm & H).
      exists m', g, t. split; [by apply list_elem_of_further|done].
    + exists ((n, Re.sub_mentions t) :: added). rewrite Ho, E.
      split; [by rewrite <- app_assoc|]. split; [simpl; lia|].
      intros n' s [[= -> ->]|Hs]%elem_of_cons.
      * exists m, g, t. split; [apply list_elem_of_here|done].
      * destruct (Hin n' s Hs) as (m' & g' & t' & Hm & H).
        exists m', g', t'. split; [by apply list_elem_of_further|done].
Qed.

Lemma X17_round_trip_witness :
  (Z.abs (-1001234567) < 10 ^ 4300)%Z /\
  _first_text [PInt (-1001234567)] = "-1001234567" /\
  py_int "-1001234567" = Some (-1001234567)%Z.
Proof.
  assert (H : (Z.abs (-1001234567) < 10 ^ 4300)%Z) by (vm_compute; reflexivity).
  split; [exact H|].
  apply (X17_int_group_id_round_trip (-1001234567) H).
Defined.
